(** * client_load.py: the load-test dispatcher and its statistics report

    A shallow embedding of [src/client_load.py].

    - Latencies and wall-clock times are Python floats in the source.  Every
      finite float denotes a rational, and the operations on them that the
      properties below depend on (comparison, the test against zero, the
      sign of a difference of clock readings, and orderings that rounding
      to the nearest float keeps) are exact on those, so they are modelled
      as [Q].  The report keeps the values that are handed to the f-string
      formatter; the [.1f]/[.2f] rendering is not modelled.
    - The percentile indices [int(len(latencies) * 0.90)] are float products
      in the source.  They are modelled by the exact [n * 90 / 100]; module
      [Binary64] evaluates the products on binary64 floats and
      [binary64_indices] shows that they truncate to the same index for
      every list of up to 50000 latencies.
    - A raised Python exception is an explicit [Raise] result.
    - An error message is a [string]; only its length and its prefixes
      matter.
    - The request payload ([create_random_observation]) has no influence on
      the outcome record and is left out.
    - The thread pool of [run_load_test] is a labelled transition system
      whose schedules are lists of actions (section Dispatcher). *)

From Stdlib Require Import String Ascii.
From Stdlib Require Import List Arith NArith ZArith QArith Qround Bool Lia.
From Stdlib Require PrimFloat Uint63.
From Stdlib Require Import Permutation Sorted Lqa.
Import ListNotations.

Set Implicit Arguments.
Close Scope Q_scope.

(** ** Python exceptions *)

Inductive exn : Type :=
  | ZeroDivisionError
  | IndexError
  | ValueError
  | StatisticsError.

Inductive result (A : Type) : Type :=
  | Ok (a : A)
  | Raise (e : exn).

Arguments Ok {A} a.
Arguments Raise {A} e.

Definition bind {A B : Type} (m : result A) (k : A -> result B) : result B :=
  match m with
  | Ok a => k a
  | Raise e => Raise e
  end.

Notation "x <- m ;; k" := (bind m (fun x => k))
  (at level 61, m at next level, right associativity).

Definition raises {A : Type} (m : result A) (e : exn) : Prop := m = Raise e.

Definition returns {A : Type} (m : result A) : Prop := exists a, m = Ok a.

(** ** Python built-ins used by the report *)

(** [len(xs)] as a number that enters float arithmetic. *)
Definition len {A : Type} (xs : list A) : Q := inject_Z (Z.of_nat (length xs)).

(** [a / b]: true division raises when the divisor is zero. *)
Definition truediv (a b : Q) : result Q :=
  if Qeq_bool b 0 then Raise ZeroDivisionError else Ok (a / b)%Q.

(** [xs[i]] for a non-negative index. *)
Definition getitem {A : Type} (xs : list A) (i : nat) : result A :=
  match nth_error xs i with
  | Some x => Ok x
  | None => Raise IndexError
  end.

(** [min(xs)] and [max(xs)]: the first smallest (largest) element. *)
Definition py_min (xs : list Q) : result Q :=
  match xs with
  | [] => Raise ValueError
  | x :: tl => Ok (fold_left (fun m y => if Qlt_le_dec y m then y else m) tl x)
  end.

Definition py_max (xs : list Q) : result Q :=
  match xs with
  | [] => Raise ValueError
  | x :: tl => Ok (fold_left (fun m y => if Qlt_le_dec m y then y else m) tl x)
  end.

(** [xs.sort()]: an ascending sort.  The list holds bare numbers, so the
    order it leaves equal ones in cannot be observed. *)
Fixpoint insert (x : Q) (xs : list Q) : list Q :=
  match xs with
  | [] => [x]
  | y :: tl => if Qlt_le_dec x y then x :: y :: tl else y :: insert x tl
  end.

Fixpoint sort (xs : list Q) : list Q :=
  match xs with
  | [] => []
  | x :: tl => insert x (sort tl)
  end.

(** ** The [statistics] module of the Python standard library

    [mean], [median] and [stdev] as documented: they work on the exact
    values of their data and raise [StatisticsError] on too few points. *)

Definition Qsum (xs : list Q) : Q := fold_right Qplus 0%Q xs.

Definition mean (data : list Q) : result Q :=
  match data with
  | [] => Raise StatisticsError
  | _ => Ok (Qsum data / len data)%Q
  end.

Definition median (data : list Q) : result Q :=
  let data := sort data in
  let n := length data in
  if Nat.eqb n 0 then Raise StatisticsError
  else if Nat.eqb (n mod 2) 1 then getitem data (n / 2)
  else
    lo <- getitem data (n / 2 - 1) ;;
    hi <- getitem data (n / 2) ;;
    Ok ((lo + hi) / 2)%Q.

(** The sum of squared deviations from the mean, over [n - 1]. *)
Definition sample_variance (data : list Q) : Q :=
  let m := (Qsum data / len data)%Q in
  (Qsum (map (fun x => (x - m) * (x - m)) data) / (len data - 1))%Q.

(** A standard deviation is the square root of a rational, kept as such. *)
Inductive surd : Type :=
  | Sqrt (radicand : Q).

Definition stdev (data : list Q) : result surd :=
  if Nat.ltb (length data) 2 then Raise StatisticsError
  else Ok (Sqrt (sample_variance data)).

(** ** Data model *)

(** [LatencyResult]: result of a single RPC call. *)
Record LatencyResult : Type := mkLatencyResult {
  success : bool;
  latency_ms : Q;
  error : string
}.

(** The figures of the "Latency Statistics" and "Percentiles" blocks. *)
Record LatencyStats : Type := mkLatencyStats {
  lat_min : Q;
  lat_max : Q;
  lat_mean : Q;
  lat_median : Q;
  lat_stdev : option surd;   (* [None] is the "N/A" line *)
  p50 : Q;
  p90 : Q;
  p95 : Q;
  p99 : Q
}.

(** Everything [print_statistics] prints, in print order. *)
Record StatsReport : Type := mkStatsReport {
  total_requests : nat;
  successful_count : nat;
  success_rate : Q;
  failed_count : nat;
  failure_rate : Q;
  total_time_s : Q;
  throughput : Q;
  latency : option LatencyStats;
  sample_errors : option (list string)
}.

(** ** print_statistics *)

(** [int(len(latencies) * p)] for [p] one of 0.50, 0.90, 0.95, 0.99,
    given in hundredths ([n] is [len(latencies)]). *)
Definition percentile_index (n p : nat) : nat := (n * p) / 100.

(** The body of [if successful:], on the sorted latencies. *)
Definition latency_statistics (latencies : list Q) : result LatencyStats :=
  mn <- py_min latencies ;;
  mx <- py_max latencies ;;
  avg <- mean latencies ;;
  med <- median latencies ;;
  sd <- (if Nat.ltb 1 (length latencies)
         then s <- stdev latencies ;; Ok (Some s)
         else Ok None) ;;
  let p50_idx := percentile_index (length latencies) 50 in
  let p90_idx := percentile_index (length latencies) 90 in
  let p95_idx := percentile_index (length latencies) 95 in
  let p99_idx := percentile_index (length latencies) 99 in
  v50 <- getitem latencies p50_idx ;;
  v90 <- getitem latencies p90_idx ;;
  v95 <- getitem latencies p95_idx ;;
  v99 <- getitem latencies (Nat.min p99_idx (length latencies - 1)) ;;
  Ok (mkLatencyStats mn mx avg med sd v50 v90 v95 v99).

Definition successful (results : list LatencyResult) : list LatencyResult :=
  filter success results.

Definition failed (results : list LatencyResult) : list LatencyResult :=
  filter (fun r => negb (success r)) results.

(** The latencies of the successful calls, after [latencies.sort()]. *)
Definition sorted_latencies (results : list LatencyResult) : list Q :=
  sort (map latency_ms (successful results)).

(** Lines 123-144: the latency block, skipped when nothing succeeded. *)
Definition latency_section (results : list LatencyResult)
  : result (option LatencyStats) :=
  match successful results with
  | [] => Ok None
  | _ :: _ => s <- latency_statistics (sorted_latencies results) ;; Ok (Some s)
  end.

(** Lines 146-149: [r.error[:100]] for [r] in [failed[:5]]. *)
Definition error_sample (results : list LatencyResult)
  : option (list string) :=
  match failed results with
  | [] => None
  | _ :: _ =>
      Some (map (fun r => substring 0 100 (error r))
                (firstn 5 (failed results)))
  end.

Definition print_statistics (results : list LatencyResult) (total_time : Q)
  : result StatsReport :=
  ok_rate <- truediv (100 * len (successful results)) (len results) ;;
  ko_rate <- truediv (100 * len (failed results)) (len results) ;;
  rps <- truediv (len results) total_time ;;
  lat <- latency_section results ;;
  Ok (mkStatsReport (length results)
        (length (successful results)) ok_rate
        (length (failed results)) ko_rate
        total_time rps lat (error_sample results)).

(** The percentile rule in the words of the specification: the index is
    floor(successes * p/100), clamped to [0, successes - 1], and the value is
    the element of the sorted sequence at that index. *)
Definition spec_percentile_index (n p : nat) : Z :=
  Z.max 0 (Z.min (Qfloor (inject_Z (Z.of_nat n) * (Z.of_nat p # 100)))
                 (Z.of_nat n - 1)).

Definition spec_percentile (sorted : list Q) (p : nat) : option Q :=
  nth_error sorted (Z.to_nat (spec_percentile_index (length sorted) p)).

(** The failure sample in the words of the specification: going through
    the outcomes in collection order, keep up to the first [n] whose success
    flag is false. *)
Fixpoint spec_first_failed (n : nat) (outcomes : list LatencyResult)
  : list LatencyResult :=
  match n, outcomes with
  | O, _ => []
  | _, [] => []
  | S n', r :: rest =>
      if success r then spec_first_failed n rest
      else r :: spec_first_failed n' rest
  end.

(** ** The index computation on binary64

    The source multiplies [len(latencies)] by a float literal and truncates
    with [int].  For [x >= 0], [int(x) = k] exactly when [k <= x < k + 1];
    [index_is n p k] tests that on the binary64 product. *)
Module Binary64.
Import PrimFloat.
#[local] Set Warnings "-inexact-float".

Definition of_N (n : N) : float := of_uint63 (Uint63.of_Z (Z.of_N n)).

Definition index_is (n : N) (p : float) (k : N) : bool :=
  let x := mul (of_N n) p in
  (leb (of_N k) x && ltb x (of_N (k + 1)))%bool.

(** The literals of the source, as the nearest binary64 values. *)
Definition f50 : float := 0.50%float.
Definition f90 : float := 0.90%float.
Definition f95 : float := 0.95%float.
Definition f99 : float := 0.99%float.

(** The four float products truncate to [n * p / 100] at length [n]. *)
Definition agree_at (n : N) : bool :=
  (index_is n f50 (n * 50 / 100)
   && index_is n f90 (n * 90 / 100)
   && index_is n f95 (n * 95 / 100)
   && index_is n f99 (n * 99 / 100))%bool.

(** ... and at the [count] lengths from [n] on. *)
Fixpoint agree_from (count : nat) (n : N) : bool :=
  match count with
  | O => true
  | S count' => (agree_at n && agree_from count' (N.succ n))%bool
  end.
End Binary64.

(** ** send_plan_request *)

(** What [stub.Plan(request, timeout=10.0)] does: it returns a response, or
    raises [grpc.RpcError e] (server error, deadline exceeded, connection
    failure), of which [str(e)] is kept. *)
Inductive rpc_outcome : Type :=
  | Response
  | RpcError (msg : string).

(** [start] and [finish] are the two readings of [time.perf_counter()]. *)
Definition send_plan_request (start finish : Q) (o : rpc_outcome)
  : LatencyResult :=
  let latency := ((finish - start) * 1000)%Q in
  match o with
  | Response => mkLatencyResult true latency EmptyString
  | RpcError e => mkLatencyResult false latency e
  end.

(** ** run_load_test

    The executor and [as_completed] as a transition system.  All requests
    are submitted at once; a worker takes the next pending request whenever
    fewer than [max_concurrent] are in flight; a call in flight finishes at
    any later time; the main thread collects finished futures one at a time.
    [time.perf_counter()] is monotonic: the clock only moves forward. *)
Record pool : Type := mkPool {
  clock : Q;
  pending : list nat;                     (* submitted, not started *)
  in_flight : list (nat * Q);             (* [robot_id] and its [start] *)
  done : list (nat * LatencyResult);      (* finished, not yet yielded *)
  results : list (nat * LatencyResult);   (* [results], with [futures[future]] *)
  completed : nat;
  progress : list nat                     (* the "Progress:" lines printed *)
}.

Inductive action : Type :=
  | Tick (d : Q)         (* time passes *)
  | Start                (* a free worker starts the next pending request *)
  | Finish (i : nat)     (* the call for request [i] returns or raises *)
  | Collect (i : nat).   (* [as_completed] yields the future of request [i] *)

(** The first entry of [l] under key [i], and [l] without it. *)
Fixpoint take {A : Type} (i : nat) (l : list (nat * A))
  : option (A * list (nat * A)) :=
  match l with
  | [] => None
  | (j, a) :: tl =>
      if Nat.eqb j i then Some (a, tl)
      else match take i tl with
           | Some (b, rest) => Some (b, (j, a) :: rest)
           | None => None
           end
  end.

Section Dispatcher.

(** The service's answer to the call for each request; every request is
    sent once, so this fixes the behaviour of the remote side. *)
Variable plan : nat -> rpc_outcome.
Variable max_concurrent : nat.

Definition step (a : action) (st : pool) : option pool :=
  match a with
  | Tick d =>
      if Qle_bool 0 d
      then Some (mkPool (clock st + d) (pending st) (in_flight st) (done st)
                   (results st) (completed st) (progress st))
      else None
  | Start =>
      match pending st with
      | i :: rest =>
          if Nat.ltb (length (in_flight st)) max_concurrent
          then Some (mkPool (clock st) rest (in_flight st ++ [(i, clock st)])
                       (done st) (results st) (completed st) (progress st))
          else None
      | [] => None
      end
  | Finish i =>
      match take i (in_flight st) with
      | Some (start, rest) =>
          Some (mkPool (clock st) (pending st) rest
                  (done st ++ [(i, send_plan_request start (clock st) (plan i))])
                  (results st) (completed st) (progress st))
      | None => None
      end
  | Collect i =>
      match take i (done st) with
      | Some (r, rest) =>
          let completed' := completed st + 1 in
          Some (mkPool (clock st) (pending st) (in_flight st) rest
                  (results st ++ [(i, r)]) completed'
                  (if Nat.eqb (completed' mod 100) 0
                   then progress st ++ [completed'] else progress st))
      | None => None
      end
  end.

Fixpoint exec (schedule : list action) (st : pool) : option pool :=
  match schedule with
  | [] => Some st
  | a :: rest =>
      match step a st with
      | Some st' => exec rest st'
      | None => None
      end
  end.

(** The state after the futures dictionary is built. *)
Definition init (num_requests : nat) (start_time : Q) : pool :=
  mkPool start_time (seq 0 num_requests) [] [] [] 0 [].

(** [as_completed] is exhausted and the executor has shut down. *)
Definition all_done (st : pool) : bool :=
  match pending st, in_flight st, done st with
  | [], [], [] => true
  | _, _, _ => false
  end.

(** [results, total_time] as returned, for a schedule that is a complete
    run of the pool; [None] for a list of actions that is not one.
    [ThreadPoolExecutor(max_workers=0)] raises [ValueError] before any
    request is submitted. *)
Definition run_load_test (num_requests : nat) (start_time : Q)
    (schedule : list action) : option (result (list LatencyResult * Q)) :=
  if Nat.eqb max_concurrent 0 then Some (Raise ValueError)
  else
    match exec schedule (init num_requests start_time) with
    | Some st =>
        if all_done st
        then Some (Ok (map snd (results st), (clock st - start_time)%Q))
        else None
    | None => None
    end.

(** The run went to its end and returned. *)
Definition completes (r : option (result (list LatencyResult * Q))) : Prop :=
  exists outcomes total_time, r = Some (Ok (outcomes, total_time)).

(** A schedule that serves the given pending requests one after the
    other, and the one that does so for a whole run. *)
Definition one_by_one (ids : list nat) : list action :=
  flat_map (fun i => [Start; Tick 1; Finish i; Collect i]) ids.

Definition sequential (num_requests : nat) : list action :=
  one_by_one (seq 0 num_requests).

(** A schedule that brings any state to the end of the run: the calls in
    flight finish, every finished future is collected, and the pending
    requests are served. *)
Definition drain (st : pool) : list action :=
  map Finish (map fst (in_flight st))
    ++ map Collect (map fst (done st) ++ map fst (in_flight st))
    ++ one_by_one (pending st).

(** Where each request index is, at any moment. *)
Definition indices (st : pool) : list nat :=
  pending st ++ map fst (in_flight st) ++ map fst (done st)
    ++ map fst (results st).

(** An outcome of request [i] is what [send_plan_request] builds from two
    clock readings in order. *)
Definition outcome_of (e : nat * LatencyResult) : Prop :=
  exists start finish,
    (start <= finish)%Q /\
    snd e = send_plan_request start finish (plan (fst e)).

Record pool_inv (num_requests : nat) (st : pool) : Prop := mkPoolInv {
  inv_indices : Permutation (indices st) (seq 0 num_requests);
  inv_started : Forall (fun e => (snd e <= clock st)%Q) (in_flight st);
  inv_done : Forall outcome_of (done st);
  inv_results : Forall outcome_of (results st);
  inv_bound : length (in_flight st) <= max_concurrent;
  inv_completed : completed st = length (results st)
}.

End Dispatcher.

(** ** The rest of the module: progress lines and main *)

(** Line 100: the percentage [100*completed/num_requests] of a "Progress:"
    line. *)
Definition progress_percent (completed num_requests : nat) : result Q :=
  truediv (100 * inject_Z (Z.of_nat completed))
          (inject_Z (Z.of_nat num_requests)).

Definition is_response (o : rpc_outcome) : bool :=
  match o with
  | Response => true
  | RpcError _ => false
  end.

(** [main], from the parsed arguments on: [range(num_requests)] is empty
    for a negative count, and the executor refuses [max_workers <= 0].
    [None] for a list of actions that is not a complete run. *)
Definition main (plan : nat -> rpc_outcome) (requests concurrent : Z)
    (start_time : Q) (schedule : list action) : option (result StatsReport) :=
  match run_load_test plan (Z.to_nat concurrent) (Z.to_nat requests)
          start_time schedule with
  | Some (Ok (results, total_time)) =>
      Some (print_statistics results total_time)
  | Some (Raise e) => Some (Raise e)
  | None => None
  end.

(** Two latency blocks with equal figures; [Q] has several representations
    of one number, so the figures are compared with [==]. *)
Definition stdev_eq (a b : option surd) : Prop :=
  match a, b with
  | Some (Sqrt x), Some (Sqrt y) => (x == y)%Q
  | None, None => True
  | _, _ => False
  end.

Definition stats_eq (s t : LatencyStats) : Prop :=
  (lat_min s == lat_min t)%Q /\ (lat_max s == lat_max t)%Q
  /\ (lat_mean s == lat_mean t)%Q /\ (lat_median s == lat_median t)%Q
  /\ stdev_eq (lat_stdev s) (lat_stdev t)
  /\ (p50 s == p50 t)%Q /\ (p90 s == p90 t)%Q
  /\ (p95 s == p95 t)%Q /\ (p99 s == p99 t)%Q.

(** How many elements of [xs] are at most [x]. *)
Definition count_le (x : Q) (xs : list Q) : nat :=
  length (filter (fun y => Qle_bool y x) xs).

(** An outcome built from two clock readings taken, in order, between the
    start of the run and [now]. *)
Definition timed (plan : nat -> rpc_outcome) (start_time now : Q)
    (e : nat * LatencyResult) : Prop :=
  exists start finish,
    (start_time <= start)%Q /\ (start <= finish)%Q /\ (finish <= now)%Q
    /\ snd e = send_plan_request start finish (plan (fst e)).

Record timing_inv (plan : nat -> rpc_outcome) (start_time : Q) (st : pool)
  : Prop := mkTimingInv {
  tm_clock : (start_time <= clock st)%Q;
  tm_in_flight :
    Forall (fun e => (start_time <= snd e)%Q /\ (snd e <= clock st)%Q)
           (in_flight st);
  tm_done : Forall (timed plan start_time (clock st)) (done st);
  tm_results : Forall (timed plan start_time (clock st)) (results st)
}.

(** The "Progress:" lines so far are those of every 100th completion. *)
Definition progress_inv (st : pool) : Prop :=
  progress st = map (fun k => 100 * k) (seq 1 (completed st / 100)).

(** * Properties *)

(** ** The error monad *)

Lemma bind_Ok {A B : Type} (m : result A) (k : A -> result B) (b : B) :
  bind m k = Ok b -> exists a, m = Ok a /\ k a = Ok b.
Proof.
  destruct m as [a | e]; simpl; intros H; [ now exists a | discriminate ].
Qed.

Lemma getitem_nth {A : Type} (xs : list A) (i : nat) (d : A) :
  i < length xs -> getitem xs i = Ok (nth i xs d).
Proof.
  intros Hi. unfold getitem.
  rewrite (nth_error_nth' xs d Hi). reflexivity.
Qed.

Lemma getitem_returns_iff {A : Type} (xs : list A) (i : nat) :
  returns (getitem xs i) <-> i < length xs.
Proof.
  unfold returns, getitem. split.
  - intros [a Ha]. apply nth_error_Some.
    destruct (nth_error xs i); [ discriminate | discriminate Ha ].
  - intros Hi. apply nth_error_Some in Hi.
    destruct (nth_error xs i) as [x | ]; [ now exists x | contradiction ].
Qed.

(** ** Sorting *)

Lemma insert_length (x : Q) (xs : list Q) :
  length (insert x xs) = S (length xs).
Proof.
  induction xs as [ | y tl IH]; simpl; [ reflexivity | ].
  destruct (Qlt_le_dec x y); simpl; [ reflexivity | now rewrite IH ].
Qed.

Lemma sort_length (xs : list Q) : length (sort xs) = length xs.
Proof.
  induction xs as [ | x tl IH]; simpl; [ reflexivity | ].
  now rewrite insert_length, IH.
Qed.

Lemma insert_perm (x : Q) (xs : list Q) : Permutation (x :: xs) (insert x xs).
Proof.
  induction xs as [ | y tl IH]; simpl; [ apply Permutation_refl | ].
  destruct (Qlt_le_dec x y); [ apply Permutation_refl | ].
  eapply perm_trans; [ apply perm_swap | now apply perm_skip ].
Qed.

Lemma sort_perm (xs : list Q) : Permutation xs (sort xs).
Proof.
  induction xs as [ | x tl IH]; simpl; [ constructor | ].
  eapply perm_trans; [ apply perm_skip, IH | apply insert_perm ].
Qed.

Lemma insert_Forall (P : Q -> Prop) (x : Q) (xs : list Q) :
  P x -> Forall P xs -> Forall P (insert x xs).
Proof.
  intros Hx Hxs.
  apply (Permutation_Forall (insert_perm x xs)). now constructor.
Qed.

Lemma insert_sorted (x : Q) (xs : list Q) :
  StronglySorted Qle xs -> StronglySorted Qle (insert x xs).
Proof.
  induction 1 as [ | y tl Hs IH Hall]; simpl.
  - repeat constructor.
  - destruct (Qlt_le_dec x y) as [Hlt | Hle].
    + constructor; [ now constructor | ].
      constructor; [ now apply Qlt_le_weak | ].
      eapply Forall_impl; [ | exact Hall ].
      intros z Hz. apply Qle_trans with y; [ now apply Qlt_le_weak | exact Hz ].
    + constructor; [ exact IH | now apply insert_Forall ].
Qed.

Lemma sort_sorted (xs : list Q) : StronglySorted Qle (sort xs).
Proof.
  induction xs as [ | x tl IH]; simpl; [ constructor | now apply insert_sorted ].
Qed.

(** In a sorted list, a later position holds a value at least as large. *)
Lemma sorted_nth_le (xs : list Q) :
  StronglySorted Qle xs ->
  forall i j, i <= j -> j < length xs -> (nth i xs 0 <= nth j xs 0)%Q.
Proof.
  induction 1 as [ | x tl Hs IH Hall]; intros i j Hij Hj; simpl in Hj.
  - lia.
  - destruct i as [ | i], j as [ | j]; simpl; try lia.
    + apply Qle_refl.
    + rewrite Forall_forall in Hall. apply Hall, nth_In. lia.
    + apply IH; lia.
Qed.

(** ** Percentile indices *)

Lemma percentile_index_lt (n p : nat) :
  1 <= n -> p <= 99 -> percentile_index n p < n.
Proof.
  intros Hn Hp. unfold percentile_index.
  apply Nat.Div0.div_lt_upper_bound. nia.
Qed.

Lemma percentile_index_mono (n p q : nat) :
  p <= q -> percentile_index n p <= percentile_index n q.
Proof.
  intros Hpq. unfold percentile_index.
  apply Nat.Div0.div_le_mono. nia.
Qed.

(** The clamp on the p99 index never changes it. *)
Lemma p99_clamp_idle (n : nat) :
  1 <= n -> Nat.min (percentile_index n 99) (n - 1) = percentile_index n 99.
Proof.
  intros Hn. pose proof (@percentile_index_lt n 99 Hn (le_n _)). lia.
Qed.

(** The spec's floor-and-clamp index is the index the code computes. *)
Lemma spec_percentile_index_eq (n p : nat) :
  1 <= n -> p <= 99 ->
  spec_percentile_index n p = Z.of_nat (percentile_index n p).
Proof.
  intros Hn Hp. pose proof (percentile_index_lt Hn Hp) as Hlt.
  unfold spec_percentile_index, percentile_index in *.
  assert (Hfloor : Qfloor (inject_Z (Z.of_nat n) * (Z.of_nat p # 100))
                   = Z.of_nat (n * p / 100)).
  { unfold Qfloor, Qmult, inject_Z; simpl Qnum; simpl Qden.
    rewrite Nat2Z.inj_div, Nat2Z.inj_mul. reflexivity. }
  rewrite Hfloor. lia.
Qed.

(** The same on [N], the form the binary64 check runs on. *)
Lemma percentile_index_N (n p : nat) :
  N.of_nat (percentile_index n p) = (N.of_nat n * N.of_nat p / 100)%N.
Proof.
  unfold percentile_index.
  now rewrite Nat2N.inj_div, Nat2N.inj_mul.
Qed.

(** For every list of up to 50000 latencies, [int(len(latencies) * 0.50)],
    [... * 0.90], [... * 0.95] and [... * 0.99] evaluated on binary64 floats
    are the indices [percentile_index] gives. *)
Lemma binary64_agree_upto_50000 : Binary64.agree_from (50 * 1000 + 1) 0 = true.
Proof. vm_compute. reflexivity. Qed.

Lemma agree_from_at (count : nat) :
  forall start, Binary64.agree_from count start = true ->
  forall k, k < count -> Binary64.agree_at (start + N.of_nat k) = true.
Proof.
  induction count as [ | count IH]; intros start H k Hk; [ lia | ].
  simpl in H. apply andb_true_iff in H. destruct H as [Hat Hrest].
  destruct k as [ | k].
  - now rewrite N.add_0_r.
  - replace (start + N.of_nat (S k))%N with (N.succ start + N.of_nat k)%N by lia.
    apply IH; [ exact Hrest | lia ].
Qed.

Lemma binary64_indices (n : nat) :
  n <= 50 * 1000 ->
  Binary64.index_is (N.of_nat n) Binary64.f50 (N.of_nat (percentile_index n 50)) = true
  /\ Binary64.index_is (N.of_nat n) Binary64.f90 (N.of_nat (percentile_index n 90)) = true
  /\ Binary64.index_is (N.of_nat n) Binary64.f95 (N.of_nat (percentile_index n 95)) = true
  /\ Binary64.index_is (N.of_nat n) Binary64.f99 (N.of_nat (percentile_index n 99)) = true.
Proof.
  intros Hn.
  assert (Hk : n < 50 * 1000 + 1) by lia.
  pose proof (agree_from_at _ binary64_agree_upto_50000 Hk) as H.
  rewrite N.add_0_l in H. unfold Binary64.agree_at in H.
  rewrite !andb_true_iff in H.
  rewrite !percentile_index_N. tauto.
Qed.

(** ** The latency block *)

Lemma median_returns (data : list Q) : data <> [] -> returns (median data).
Proof.
  intros Hne. unfold median, returns.
  assert (Hlen : 1 <= length (sort data)).
  { rewrite sort_length. destruct data; [ contradiction | simpl; lia ]. }
  destruct (Nat.eqb_spec (length (sort data)) 0) as [H0 | _]; [ lia | ].
  pose proof (Nat.div_lt (length (sort data)) 2 ltac:(lia) ltac:(lia)) as Hhalf.
  destruct (Nat.eqb (length (sort data) mod 2) 1).
  - rewrite (getitem_nth _ 0%Q Hhalf). eauto.
  - rewrite (@getitem_nth _ (sort data) (length (sort data) / 2 - 1) 0%Q)
      by lia.
    rewrite (getitem_nth _ 0%Q Hhalf). simpl. eauto.
Qed.

(** On a non-empty list the block raises nothing, and these are its
    figures. *)
Lemma latency_statistics_ok (latencies : list Q) :
  latencies <> [] ->
  exists mn mx avg med,
    latency_statistics latencies =
    Ok (mkLatencyStats mn mx avg med
          (if Nat.ltb 1 (length latencies)
           then Some (Sqrt (sample_variance latencies)) else None)
          (nth (percentile_index (length latencies) 50) latencies 0%Q)
          (nth (percentile_index (length latencies) 90) latencies 0%Q)
          (nth (percentile_index (length latencies) 95) latencies 0%Q)
          (nth (percentile_index (length latencies) 99) latencies 0%Q)).
Proof.
  intros Hne.
  assert (Hlen : 1 <= length latencies).
  { destruct latencies; [ contradiction | simpl; lia ]. }
  destruct (median_returns Hne) as [med Hmed].
  unfold latency_statistics.
  destruct latencies as [ | x tl] eqn:E; [ contradiction | ].
  rewrite <- E in *. subst latencies.
  set (l := x :: tl) in *.
  unfold py_min at 1, py_max at 1, mean at 1. fold l.
  cbn [l bind]. fold l. rewrite Hmed. cbn [bind].
  assert (Hsd : (if Nat.ltb 1 (length l)
                 then s <- stdev l ;; Ok (Some s) else Ok None)
                = Ok (if Nat.ltb 1 (length l)
                      then Some (Sqrt (sample_variance l)) else None)).
  { unfold stdev. destruct (Nat.ltb_spec 1 (length l)) as [H1 | H1];
      [ | reflexivity ].
    destruct (Nat.ltb_spec (length l) 2); [ lia | reflexivity ]. }
  rewrite Hsd. cbn [bind].
  rewrite (p99_clamp_idle Hlen).
  rewrite !(@getitem_nth _ l _ 0%Q) by (apply percentile_index_lt; lia).
  cbn [bind]. eauto 6.
Qed.

Lemma successful_failed_length (results : list LatencyResult) :
  length (successful results) + length (failed results) = length results.
Proof.
  unfold successful, failed.
  induction results as [ | r tl IH]; simpl; [ reflexivity | ].
  destruct (success r); simpl; lia.
Qed.

Lemma sorted_latencies_length (results : list LatencyResult) :
  length (sorted_latencies results) = length (successful results).
Proof.
  unfold sorted_latencies. now rewrite sort_length, length_map.
Qed.

Lemma sorted_latencies_nonempty (results : list LatencyResult) :
  successful results <> [] -> sorted_latencies results <> [].
Proof.
  intros Hne Hnil. apply Hne.
  apply length_zero_iff_nil. rewrite <- sorted_latencies_length, Hnil.
  reflexivity.
Qed.

(** ** The header *)

Lemma len_zero_iff {A : Type} (xs : list A) :
  Qeq_bool (len xs) 0 = true <-> xs = [].
Proof.
  unfold len. split.
  - intros H. apply Qeq_bool_eq in H.
    destruct xs; [ reflexivity | ].
    unfold Qeq in H. simpl in H. lia.
  - intros ->. reflexivity.
Qed.


Lemma truediv_ok (a b : Q) :
  ~ (b == 0)%Q -> truediv a b = Ok (a / b)%Q.
Proof.
  intros H. unfold truediv.
  destruct (Qeq_bool b 0) eqn:E; [ | reflexivity ].
  apply Qeq_bool_eq in E. contradiction.
Qed.

(** With at least one outcome and a non-zero elapsed time the whole report
    is produced, and these are its fields. *)
Lemma print_statistics_ok (results : list LatencyResult) (total_time : Q) :
  results <> [] -> ~ (total_time == 0)%Q ->
  exists lat,
    latency_section results = Ok lat /\
    print_statistics results total_time =
    Ok (mkStatsReport (length results)
          (length (successful results))
          (100 * len (successful results) / len results)%Q
          (length (failed results))
          (100 * len (failed results) / len results)%Q
          total_time (len results / total_time)%Q
          lat (error_sample results)).
Proof.
  intros Hne Ht.
  assert (Hlen : ~ (len results == 0)%Q).
  { intros H. apply Qeq_eq_bool in H. apply len_zero_iff in H. contradiction. }
  assert (Hlat : exists lat, latency_section results = Ok lat).
  { unfold latency_section.
    destruct (successful results) as [ | r tl] eqn:E; [ eauto | ].
    assert (Hs : successful results <> []) by (rewrite E; discriminate).
    destruct (latency_statistics_ok (sorted_latencies_nonempty results Hs))
      as (mn & mx & avg & med & ->).
    simpl. eauto. }
  destruct Hlat as [lat Hlat]. exists lat. split; [ exact Hlat | ].
  unfold print_statistics.
  rewrite !(truediv_ok _ Hlen), (truediv_ok _ Ht), Hlat. reflexivity.
Qed.

(** Whatever report is produced carries the latency block and the error
    sample of its result set. *)
Lemma print_statistics_sections (results : list LatencyResult)
    (total_time : Q) (report : StatsReport) :
  print_statistics results total_time = Ok report ->
  latency_section results = Ok (latency report)
  /\ sample_errors report = error_sample results
  /\ total_requests report = length results
  /\ successful_count report + failed_count report = total_requests report.
Proof.
  unfold print_statistics. intros H.
  apply bind_Ok in H. destruct H as (ok_rate & _ & H).
  apply bind_Ok in H. destruct H as (ko_rate & _ & H).
  apply bind_Ok in H. destruct H as (rps & _ & H).
  apply bind_Ok in H. destruct H as (lat & Hlat & H).
  injection H as <-. simpl.
  repeat split; [ exact Hlat | apply successful_failed_length ].
Qed.

(** ** Truncated error messages *)

Lemma substring_0_length (n : nat) (s : string) :
  String.length (substring 0 n s) = Nat.min n (String.length s).
Proof.
  revert s. induction n as [ | n IH]; intros s.
  - destruct s; reflexivity.
  - destruct s as [ | c s]; simpl; [ reflexivity | now rewrite IH ].
Qed.

Lemma substring_0_prefix (n : nat) (s : string) :
  prefix (substring 0 n s) s = true.
Proof.
  revert s. induction n as [ | n IH]; intros s.
  - destruct s; reflexivity.
  - destruct s as [ | c s]; simpl; [ reflexivity | ].
    destruct (ascii_dec c c) as [_ | Hc]; [ apply IH | now elim Hc ].
Qed.

(** ** The report on concrete result sets *)

(** The latencies 1 .. 10 ms: p50 is 6, p90, p95 and p99 are 10. *)
Example percentiles_of_one_to_ten :
  exists s,
    latency_statistics [1; 2; 3; 4; 5; 6; 7; 8; 9; 10]%Q = Ok s
    /\ p50 s = 6%Q /\ p90 s = 10%Q /\ p95 s = 10%Q /\ p99 s = 10%Q
    /\ lat_min s = 1%Q /\ lat_max s = 10%Q.
Proof. eexists. split; [ vm_compute; reflexivity | ]. simpl. tauto. Qed.

(** 100 outcomes in 10 seconds are 10 requests per second. *)
Example throughput_of_hundred_in_ten_seconds :
  exists report,
    print_statistics (repeat (mkLatencyResult false 5 "unavailable") 100) 10
    = Ok report
    /\ (throughput report == 10)%Q
    /\ (failure_rate report == 100)%Q
    /\ latency report = None.
Proof.
  eexists. split; [ vm_compute; reflexivity | ]. simpl.
  repeat split; reflexivity.
Qed.

(** Two calls in flight at once, finishing out of order. *)
Example two_workers_out_of_order :
  run_load_test
    (fun i => if Nat.eqb i 1 then RpcError "deadline exceeded" else Response)
    2 3 0
    [Start; Start; Tick 2; Finish 1; Start; Tick 1; Finish 0; Collect 0;
     Finish 2; Collect 2; Collect 1]
  = Some (Ok ([mkLatencyResult true 3000 EmptyString;
               mkLatencyResult true 1000 EmptyString;
               mkLatencyResult false 2000 "deadline exceeded"], 3%Q)).
Proof. vm_compute. reflexivity. Qed.

(** A third request cannot start while two are in flight. *)
Example third_start_waits :
  exec (fun _ => Response) 2 [Start; Start; Start] (init 3 0) = None.
Proof. reflexivity. Qed.

(** * The claims *)

(** C2. For every non-empty list of latencies (sorted or not) the block
    returns, and each of p50, p90, p95 and p99 it reports is the element the
    specification's rule selects: the one at index floor(n * p / 100) clamped
    to [0, n - 1]. *)
Theorem percentiles_follow_floor_clamp_rule (latencies : list Q) :
  latencies <> [] ->
  exists s,
    latency_statistics latencies = Ok s
    /\ spec_percentile latencies 50 = Some (p50 s)
    /\ spec_percentile latencies 90 = Some (p90 s)
    /\ spec_percentile latencies 95 = Some (p95 s)
    /\ spec_percentile latencies 99 = Some (p99 s).
Proof.
  intros Hne.
  assert (Hlen : 1 <= length latencies).
  { destruct latencies; [ contradiction | simpl; lia ]. }
  destruct (latency_statistics_ok Hne) as (mn & mx & avg & med & Hs).
  eexists. split; [ exact Hs | ]. cbn [p50 p90 p95 p99].
  unfold spec_percentile.
  rewrite !spec_percentile_index_eq, !Nat2Z.id by lia.
  repeat split; apply nth_error_nth'; apply percentile_index_lt; lia.
Qed.

Lemma percentiles_follow_floor_clamp_rule_witness :
  [1; 2; 3; 4; 5; 6; 7; 8; 9; 10]%Q <> []
  /\ exists s,
      latency_statistics [1; 2; 3; 4; 5; 6; 7; 8; 9; 10]%Q = Ok s
      /\ spec_percentile [1; 2; 3; 4; 5; 6; 7; 8; 9; 10]%Q 50 = Some (p50 s)
      /\ spec_percentile [1; 2; 3; 4; 5; 6; 7; 8; 9; 10]%Q 90 = Some (p90 s)
      /\ spec_percentile [1; 2; 3; 4; 5; 6; 7; 8; 9; 10]%Q 95 = Some (p95 s)
      /\ spec_percentile [1; 2; 3; 4; 5; 6; 7; 8; 9; 10]%Q 99 = Some (p99 s).
Proof.
  split; [ discriminate | ].
  apply (@percentiles_follow_floor_clamp_rule
           [1; 2; 3; 4; 5; 6; 7; 8; 9; 10]%Q).
  discriminate.
Defined.

(** C3. For every result set with at least one success, the latency block
    is produced and its percentiles satisfy p50 <= p90 <= p95 <= p99; any
    report [print_statistics] returns carries exactly that block. *)
Theorem percentiles_monotone (results : list LatencyResult) :
  successful results <> [] ->
  exists s,
    latency_section results = Ok (Some s)
    /\ (p50 s <= p90 s)%Q /\ (p90 s <= p95 s)%Q /\ (p95 s <= p99 s)%Q
    /\ forall total_time report,
         print_statistics results total_time = Ok report ->
         latency report = Some s.
Proof.
  intros Hs.
  pose proof (sorted_latencies_nonempty results Hs) as Hne.
  destruct (latency_statistics_ok Hne) as (mn & mx & avg & med & Hstats).
  assert (Hsec : latency_section results = Ok (Some
            (mkLatencyStats mn mx avg med
               (if Nat.ltb 1 (length (sorted_latencies results))
                then Some (Sqrt (sample_variance (sorted_latencies results)))
                else None)
               (nth (percentile_index (length (sorted_latencies results)) 50)
                    (sorted_latencies results) 0%Q)
               (nth (percentile_index (length (sorted_latencies results)) 90)
                    (sorted_latencies results) 0%Q)
               (nth (percentile_index (length (sorted_latencies results)) 95)
                    (sorted_latencies results) 0%Q)
               (nth (percentile_index (length (sorted_latencies results)) 99)
                    (sorted_latencies results) 0%Q)))).
  { unfold latency_section.
    destruct (successful results); [ contradiction | ].
    now rewrite Hstats. }
  eexists. split; [ exact Hsec | ]. cbn [p50 p90 p95 p99].
  assert (Hlen : 1 <= length (sorted_latencies results)).
  { destruct (sorted_latencies results); [ contradiction | simpl; lia ]. }
  assert (Hsorted : StronglySorted Qle (sorted_latencies results))
    by apply sort_sorted.
  repeat split.
  - apply sorted_nth_le; [ exact Hsorted | apply percentile_index_mono; lia
                         | apply percentile_index_lt; lia ].
  - apply sorted_nth_le; [ exact Hsorted | apply percentile_index_mono; lia
                         | apply percentile_index_lt; lia ].
  - apply sorted_nth_le; [ exact Hsorted | apply percentile_index_mono; lia
                         | apply percentile_index_lt; lia ].
  - intros total_time report Hrep.
    apply print_statistics_sections in Hrep. destruct Hrep as [Hlat _].
    rewrite Hsec in Hlat. now injection Hlat.
Qed.

Lemma percentiles_monotone_witness :
  successful [mkLatencyResult true 7 EmptyString; mkLatencyResult false 9 "late";
              mkLatencyResult true 2 EmptyString] <> []
  /\ exists s,
      latency_section [mkLatencyResult true 7 EmptyString; mkLatencyResult false 9 "late";
                       mkLatencyResult true 2 EmptyString] = Ok (Some s)
      /\ (p50 s <= p90 s)%Q /\ (p90 s <= p95 s)%Q /\ (p95 s <= p99 s)%Q
      /\ forall total_time report,
           print_statistics [mkLatencyResult true 7 EmptyString; mkLatencyResult false 9 "late";
                             mkLatencyResult true 2 EmptyString] total_time = Ok report ->
           latency report = Some s.
Proof.
  split; [ simpl; discriminate | ].
  apply (@percentiles_monotone
           [mkLatencyResult true 7 EmptyString; mkLatencyResult false 9 "late";
            mkLatencyResult true 2 EmptyString]).
  simpl. discriminate.
Defined.

(** C4. The two rates are computed by dividing by [len(results)] with no
    test of the divisor: on a result set with no outcomes, which is what a
    run of zero requests returns, [print_statistics] raises
    [ZeroDivisionError] whatever the elapsed time. *)
Theorem rates_unguarded_on_empty_run (total_time : Q) :
  raises (print_statistics [] total_time) ZeroDivisionError.
Proof. reflexivity. Qed.

(** C5. With no successful outcome the latency block is left out of every
    report that is produced, and a report is produced when there is at least
    one outcome and the elapsed time is not zero; but the empty result set,
    which has no successful outcome either, raises [ZeroDivisionError]. *)
Theorem zero_success_report (results : list LatencyResult) (total_time : Q) :
  successful results = [] ->
  (forall report, print_statistics results total_time = Ok report ->
                  latency report = None)
  /\ (results <> [] -> ~ (total_time == 0)%Q ->
      returns (print_statistics results total_time))
  /\ (results = [] ->
      raises (print_statistics results total_time) ZeroDivisionError).
Proof.
  intros Hs. repeat split.
  - intros report Hrep.
    apply print_statistics_sections in Hrep. destruct Hrep as [Hlat _].
    unfold latency_section in Hlat. rewrite Hs in Hlat.
    now injection Hlat.
  - intros Hne Ht.
    destruct (print_statistics_ok Hne Ht) as (lat & _ & Hrep).
    unfold returns. eauto.
  - intros ->. reflexivity.
Qed.

Lemma zero_success_report_witness :
  successful [] = []
  /\ raises (print_statistics [] 1) ZeroDivisionError.
Proof.
  split; [ reflexivity | ].
  apply (@zero_success_report [] 1%Q); reflexivity.
Defined.






(** The failed outcomes are the outcomes whose success flag is false, all
    of them, in the order of the result list. *)
Lemma failed_spec (results : list LatencyResult) :
  Forall (fun r => success r = false) (failed results)
  /\ (forall r, In r results -> success r = false -> In r (failed results))
  /\ (forall r, In r (failed results) -> In r results).
Proof.
  unfold failed. repeat split.
  - apply Forall_forall. intros r Hr. apply filter_In in Hr.
    now apply negb_true_iff.
  - intros r Hin Hr. apply filter_In. split; [ exact Hin | ].
    now apply negb_true_iff.
  - intros r Hr. now apply filter_In in Hr.
Qed.

(** Slicing the failed outcomes is the scan the specification describes. *)
Lemma spec_first_failed_firstn (results : list LatencyResult) :
  forall n, spec_first_failed n results = firstn n (failed results).
Proof.
  unfold failed.
  induction results as [ | r rest IH]; intros [ | n]; simpl; try reflexivity.
  destruct (success r); simpl; [ apply IH | now rewrite IH ].
Qed.

(** C9. The sample is taken from the outcomes of the result list whose
    success flag is false: it is left out exactly when every outcome
    succeeded, and otherwise it lists, in collection order, the error
    messages of the first 5 failed outcomes (all of them when there are
    fewer), each cut to its first 100 characters (the whole message when it
    is shorter). *)
Theorem error_sample_first_five_truncated (results : list LatencyResult) :
  (Forall (fun r => success r = false) (failed results)
   /\ (forall r, In r results -> success r = false -> In r (failed results))
   /\ firstn 5 (failed results) = spec_first_failed 5 results)
  /\ (error_sample results = None
      <-> forall r, In r results -> success r = true)
  /\ (failed results = [] -> error_sample results = None)
  /\ (failed results <> [] ->
      exists msgs,
        error_sample results = Some msgs
        /\ msgs = map (fun r => substring 0 100 (error r))
                      (spec_first_failed 5 results)
        /\ length msgs = Nat.min 5 (length (failed results))
        /\ (length (failed results) <= 5 ->
            forall r, In r results -> success r = false ->
                      In (substring 0 100 (error r)) msgs)
        /\ forall k, k < length msgs ->
             exists r m,
               nth_error (failed results) k = Some r
               /\ nth_error msgs k = Some m
               /\ prefix m (error r) = true
               /\ String.length m = Nat.min 100 (String.length (error r))).
Proof.
  destruct (failed_spec results) as (Hall & Hkept & Hsub).
  pose proof (spec_first_failed_firstn results 5) as Hscan.
  split; [ | split; [ | split ] ].
  - repeat split; [ exact Hall | exact Hkept | now symmetry ].
  - unfold error_sample. split.
    + intros Hnone r Hin.
      destruct (failed results) as [ | r0 tl]; [ | discriminate ].
      destruct (success r) eqn:Hr; [ reflexivity | ].
      destruct (Hkept r Hin Hr).
    + intros Hok. destruct (failed results) as [ | r0 tl]; [ reflexivity | ].
      inversion Hall as [ | ? ? Hr0 _]; subst.
      rewrite (Hok r0 (Hsub r0 (or_introl eq_refl))) in Hr0. discriminate.
  - unfold error_sample. intros ->. reflexivity.
  - unfold error_sample.
    intros Hne. destruct (failed results) as [ | r0 tl] eqn:E;
      [ contradiction | ].
    rewrite <- E in *. clear E Hne r0 tl.
    eexists. split; [ reflexivity | ].
    split; [ now rewrite Hscan | ].
    rewrite length_map, length_firstn. split; [ reflexivity | ]. split.
    + intros Hfew r Hin Hr. apply in_map_iff. exists r.
      split; [ reflexivity | ].
      rewrite firstn_all2 by exact Hfew. now apply Hkept.
    + intros k Hk.
      assert (Hkf : k < length (failed results)) by lia.
      destruct (nth_error (failed results) k) as [r | ] eqn:Er;
        [ | apply nth_error_None in Er; lia ].
      exists r, (substring 0 100 (error r)).
      split; [ reflexivity | ]. split.
      * rewrite nth_error_map, nth_error_firstn.
        destruct (Nat.ltb_spec k 5); [ | lia ].
        now rewrite Er.
      * split; [ apply substring_0_prefix | apply substring_0_length ].
Qed.

(** C10. For every length n >= 1 and p among 50, 90 and 95 the index
    [int(n * p / 100)] is at most n - 1, so reading a list of that length at
    that index, with no clamp, raises no [IndexError]. *)
Theorem unclamped_indices_in_bounds (n p : nat) :
  1 <= n -> In p [50; 90; 95] ->
  percentile_index n p <= n - 1
  /\ forall latencies : list Q,
       length latencies = n ->
       returns (getitem latencies (percentile_index n p)).
Proof.
  intros Hn Hp.
  assert (Hp99 : p <= 99).
  { simpl in Hp. destruct Hp as [<- | [<- | [<- | []]]]; lia. }
  pose proof (percentile_index_lt Hn Hp99) as Hlt.
  split; [ lia | ].
  intros latencies Hlen. apply getitem_returns_iff. lia.
Qed.

Lemma unclamped_indices_in_bounds_witness :
  1 <= 20 /\ In 95 [50; 90; 95]
  /\ percentile_index 20 95 <= 20 - 1
  /\ forall latencies : list Q,
       length latencies = 20 ->
       returns (getitem latencies (percentile_index 20 95)).
Proof.
  split; [ lia | ]. split; [ simpl; tauto | ].
  apply (@unclamped_indices_in_bounds 20 95); [ lia | simpl; tauto ].
Defined.

(** ** The dispatcher *)

Lemma take_Some {A : Type} (i : nat) (l : list (nat * A)) (a : A)
    (rest : list (nat * A)) :
  take i l = Some (a, rest) ->
  Permutation l ((i, a) :: rest) /\ length l = S (length rest).
Proof.
  revert a rest. induction l as [ | [j b] tl IH]; intros a rest H; simpl in H.
  - discriminate.
  - destruct (Nat.eqb_spec j i) as [-> | Hji].
    + injection H as <- <-. split; [ apply Permutation_refl | reflexivity ].
    + destruct (take i tl) as [[c rest'] | ]; [ | discriminate ].
      injection H as <- <-.
      destruct (IH c rest' eq_refl) as [Hp Hl]. split.
      * eapply perm_trans; [ apply perm_skip, Hp | apply perm_swap ].
      * simpl. now rewrite Hl.
Qed.

Lemma take_In {A : Type} (i : nat) (l : list (nat * A)) :
  In i (map fst l) -> exists a rest, take i l = Some (a, rest).
Proof.
  induction l as [ | [j b] tl IH]; simpl; intros H; [ contradiction | ].
  destruct (Nat.eqb_spec j i) as [-> | Hji]; [ eauto | ].
  destruct H as [H | H]; [ contradiction | ].
  destruct (IH H) as (a & rest & ->). eauto.
Qed.

(** Two lists of indices with the same number of occurrences of every
    index are permutations of each other; [count_perm] decides this for
    concatenations. *)
Lemma perm_by_count (l1 l2 : list nat) :
  (forall x, count_occ Nat.eq_dec l1 x = count_occ Nat.eq_dec l2 x) ->
  Permutation l1 l2.
Proof. apply Permutation_count_occ. Qed.

Ltac count_perm :=
  apply perm_by_count; intros ?x;
  repeat rewrite ?map_app, ?count_occ_app; simpl;
  repeat match goal with
         | |- context [Nat.eq_dec ?a ?b] => destruct (Nat.eq_dec a b)
         end;
  lia.

Section DispatcherProperties.

Variable plan : nat -> rpc_outcome.
Variable max_concurrent : nat.
Variable num_requests : nat.

Lemma send_plan_request_latency (start finish : Q) (o : rpc_outcome) :
  (start <= finish)%Q ->
  (0 <= latency_ms (send_plan_request start finish o))%Q.
Proof.
  intros H. destruct o; simpl;
    (apply Qmult_le_0_compat; [ | discriminate ]);
    unfold Qminus; rewrite <- Qle_minus_iff; exact H.
Qed.

Lemma outcome_of_latency (e : nat * LatencyResult) :
  outcome_of plan e -> (0 <= latency_ms (snd e))%Q.
Proof.
  intros (start & finish & Hle & ->). now apply send_plan_request_latency.
Qed.

Lemma init_inv (start_time : Q) :
  pool_inv plan max_concurrent num_requests (init num_requests start_time).
Proof.
  constructor; simpl; try constructor.
  - unfold indices; simpl. rewrite app_nil_r. apply Permutation_refl.
  - lia.
Qed.

Lemma step_inv (a : action) (st st' : pool) :
  pool_inv plan max_concurrent num_requests st ->
  step plan max_concurrent a st = Some st' ->
  pool_inv plan max_concurrent num_requests st'.
Proof.
  intros [Hperm Hstarted Hdone Hres Hbound Hcompl] Hstep.
  unfold indices in Hperm.
  destruct a as [d | | i | i]; simpl in Hstep.
  - (* Tick *)
    destruct (Qle_bool 0 d) eqn:Hd; [ | discriminate ].
    injection Hstep as <-. apply Qle_bool_iff in Hd.
    constructor; simpl; auto.
    eapply Forall_impl; [ | exact Hstarted ].
    intros e He. simpl. apply Qle_trans with (clock st); [ exact He | ].
    rewrite <- (Qplus_0_r (clock st)) at 1.
    apply Qplus_le_r. exact Hd.
  - (* Start *)
    destruct (pending st) as [ | i rest] eqn:Hp; [ discriminate | ].
    destruct (Nat.ltb_spec (length (in_flight st)) max_concurrent)
      as [Hfree | _]; [ | discriminate ].
    injection Hstep as <-.
    constructor; simpl; auto.
    + unfold indices; simpl. rewrite map_app. simpl.
      rewrite <- Hperm. count_perm.
    + apply Forall_app. split; [ exact Hstarted | ].
      constructor; [ apply Qle_refl | constructor ].
    + rewrite length_app. simpl. lia.
  - (* Finish *)
    destruct (take i (in_flight st)) as [[start rest] | ] eqn:Ht;
      [ | discriminate ].
    injection Hstep as <-.
    apply take_Some in Ht. destruct Ht as [Hpf Hlf].
    assert (Hst : Forall (fun e => (snd e <= clock st)%Q)
                    ((i, start) :: rest)).
    { exact (Permutation_Forall Hpf Hstarted). }
    inversion Hst as [ | ? ? Hstart Hrest]; subst.
    constructor; simpl; auto.
    + unfold indices; simpl. rewrite <- Hperm.
      rewrite (Permutation_map fst Hpf). count_perm.
    + apply Forall_app. split; [ exact Hdone | ].
      constructor; [ | constructor ].
      exists start, (clock st). split; [ exact Hstart | reflexivity ].
    + lia.
  - (* Collect *)
    destruct (take i (done st)) as [[r rest] | ] eqn:Ht; [ | discriminate ].
    injection Hstep as <-.
    apply take_Some in Ht. destruct Ht as [Hpd Hld].
    assert (Hd : Forall (outcome_of plan) ((i, r) :: rest)).
    { exact (Permutation_Forall Hpd Hdone). }
    inversion Hd as [ | ? ? Hr Hrest]; subst.
    constructor; simpl; auto.
    + unfold indices; simpl. rewrite <- Hperm.
      rewrite (Permutation_map fst Hpd). count_perm.
    + apply Forall_app. split; [ exact Hres | ].
      constructor; [ exact Hr | constructor ].
    + rewrite length_app. simpl. lia.
Qed.

Lemma exec_inv (schedule : list action) :
  forall st st',
    pool_inv plan max_concurrent num_requests st ->
    exec plan max_concurrent schedule st = Some st' ->
    pool_inv plan max_concurrent num_requests st'.
Proof.
  induction schedule as [ | a rest IH]; intros st st' Hinv H; simpl in H.
  - now injection H as <-.
  - destruct (step plan max_concurrent a st) as [st1 | ] eqn:Hstep;
      [ | discriminate ].
    eapply IH; [ | exact H ]. eapply step_inv; eassumption.
Qed.

End DispatcherProperties.

(** ** Complete runs *)

Section Runs.

Variable plan : nat -> rpc_outcome.
Variable max_concurrent : nat.
Hypothesis workers : 1 <= max_concurrent.

Lemma exec_app (s1 s2 : list action) :
  forall st,
    exec plan max_concurrent (s1 ++ s2) st =
    match exec plan max_concurrent s1 st with
    | Some st1 => exec plan max_concurrent s2 st1
    | None => None
    end.
Proof.
  induction s1 as [ | a s1 IH]; intros st; simpl; [ reflexivity | ].
  destruct (step plan max_concurrent a st); [ apply IH | reflexivity ].
Qed.

Lemma take_head {A : Type} (i : nat) (a : A) (l : list (nat * A)) :
  take i ((i, a) :: l) = Some (a, l).
Proof. simpl. now rewrite Nat.eqb_refl. Qed.

(** The calls in flight can all finish, whatever the service answers. *)
Lemma finish_all (fl : list (nat * Q)) :
  forall st, in_flight st = fl ->
  exists st',
    exec plan max_concurrent (map Finish (map fst fl)) st = Some st'
    /\ in_flight st' = []
    /\ pending st' = pending st
    /\ map fst (done st') = map fst (done st) ++ map fst fl.
Proof.
  induction fl as [ | [i start] tl IH]; intros st Hfl.
  - exists st. simpl. rewrite app_nil_r. auto.
  - cbn [map fst exec step].
    rewrite Hfl, take_head.
    match goal with
    | |- context [exec _ _ _ ?s] =>
        destruct (IH s eq_refl) as (st' & Hrun & Hf & Hp & Hd)
    end.
    exists st'. rewrite Hrun, Hf, Hp, Hd. simpl.
    rewrite map_app, <- app_assoc. auto.
Qed.

(** Every finished future can be collected. *)
Lemma collect_all (d : list (nat * LatencyResult)) :
  forall st, done st = d ->
  exists st',
    exec plan max_concurrent (map Collect (map fst d)) st = Some st'
    /\ done st' = []
    /\ in_flight st' = in_flight st
    /\ pending st' = pending st.
Proof.
  induction d as [ | [i r] tl IH]; intros st Hd.
  - exists st. simpl. auto.
  - cbn [map fst exec step].
    rewrite Hd, take_head.
    match goal with
    | |- context [exec _ _ _ ?s] =>
        destruct (IH s eq_refl) as (st' & Hrun & Hd' & Hf & Hp)
    end.
    exists st'. rewrite Hrun. auto.
Qed.

(** With a worker available the pending requests can be served in turn. *)
Lemma one_by_one_completes (ids : list nat) :
  forall st, pending st = ids -> in_flight st = [] -> done st = [] ->
  exists st', exec plan max_concurrent (one_by_one ids) st = Some st' /\ all_done st' = true.
Proof.
  induction ids as [ | i tl IH]; intros st Hp Hf Hd.
  - exists st. unfold all_done. rewrite Hp, Hf, Hd. auto.
  - unfold one_by_one in *. cbn [flat_map app exec].
    unfold step at 1. rewrite Hp, Hf. cbn [length].
    destruct (Nat.ltb_spec 0 max_concurrent) as [_ | Hno]; [ | lia ].
    cbn [step Qle_bool Qnum Qden Z.leb Z.mul Z.compare Pos.mul
         in_flight clock pending done results completed progress app].
    rewrite take_head.
    cbn [step in_flight clock pending done results completed progress].
    rewrite Hd. cbn [app]. rewrite take_head.
    apply IH; reflexivity.
Qed.

(** No state is stuck: [drain] completes the run from anywhere. *)
Lemma drain_completes (st : pool) :
  exists st', exec plan max_concurrent (drain st) st = Some st' /\ all_done st' = true.
Proof.
  unfold drain.
  destruct (@finish_all (in_flight st) st eq_refl) as (st1 & H1 & Hf1 & Hp1 & Hd1).
  destruct (@collect_all (done st1) st1 eq_refl) as (st2 & H2 & Hd2 & Hf2 & Hp2).
  destruct (@one_by_one_completes (pending st) st2) as (st3 & H3 & Hdone).
  { congruence. } { congruence. } { exact Hd2. }
  exists st3. split; [ | exact Hdone ].
  rewrite exec_app, H1, exec_app, <- Hd1, H2. exact H3.
Qed.

End Runs.


(** At the end of a run every index is in [results]. *)
Lemma all_done_indices (st : pool) :
  all_done st = true -> indices st = map fst (results st).
Proof.
  unfold all_done, indices.
  destruct (pending st); [ | discriminate ].
  destruct (in_flight st); [ | discriminate ].
  destruct (done st); [ reflexivity | discriminate ].
Qed.

(** Every partial run extends to one that returns. *)
Lemma partial_run_completes (plan : nat -> rpc_outcome)
    (max_concurrent num_requests : nat) (start_time : Q)
    (schedule : list action) (st : pool) :
  1 <= max_concurrent ->
  exec plan max_concurrent schedule (init num_requests start_time) = Some st ->
  completes (run_load_test plan max_concurrent num_requests start_time
                  (schedule ++ drain st)).
Proof.
  intros Hworkers Hst.
  destruct (drain_completes plan Hworkers st) as (st' & Hrun & Hdone).
  unfold completes, run_load_test.
  destruct (Nat.eqb_spec max_concurrent 0) as [H0 | _]; [ lia | ].
  rewrite exec_app, Hst, Hrun, Hdone. eauto.
Qed.

(** Every state a run reaches satisfies the invariant. *)
Lemma reachable_inv (plan : nat -> rpc_outcome)
    (max_concurrent num_requests : nat) (start_time : Q)
    (schedule : list action) (st : pool) :
  exec plan max_concurrent schedule (init num_requests start_time) = Some st ->
  pool_inv plan max_concurrent num_requests st.
Proof.
  intros Hexec. eapply exec_inv in Hexec; [ exact Hexec | apply init_inv ].
Qed.

(** C1. With at least one worker, [run_load_test] returns: the sequential
    schedule is a complete run, and every partial run extends to a complete
    one.  Whatever the schedule, what it returns holds exactly
    [num_requests] outcomes, one for each request index 0 .. N-1 (the indices
    the outcomes were produced for are a permutation of that range), and
    every latency is >= 0. *)
Theorem run_load_test_one_outcome_per_request
    (plan : nat -> rpc_outcome) (max_concurrent num_requests : nat)
    (start_time : Q) :
  1 <= max_concurrent ->
  completes (run_load_test plan max_concurrent num_requests start_time
                  (sequential num_requests))
  /\ (forall schedule st,
        exec plan max_concurrent schedule (init num_requests start_time)
          = Some st ->
        completes (run_load_test plan max_concurrent num_requests start_time
                        (schedule ++ drain st)))
  /\ (forall schedule outcomes total_time,
        run_load_test plan max_concurrent num_requests start_time schedule
          = Some (Ok (outcomes, total_time)) ->
        length outcomes = num_requests
        /\ Forall (fun r => (0 <= latency_ms r)%Q) outcomes
        /\ exists st,
             exec plan max_concurrent schedule (init num_requests start_time)
               = Some st
             /\ outcomes = map snd (results st)
             /\ Permutation (map fst (results st)) (seq 0 num_requests)).
Proof.
  intros Hworkers.
  split; [ | split ].
  - apply (@partial_run_completes plan max_concurrent num_requests start_time
             [] _ Hworkers eq_refl).
  - intros schedule st. now apply partial_run_completes.
  - intros schedule outcomes total_time Hrun.
    unfold run_load_test in Hrun.
    destruct (Nat.eqb max_concurrent 0); [ discriminate | ].
    destruct (exec plan max_concurrent schedule (init num_requests start_time))
      as [st | ] eqn:Hexec; [ | discriminate ].
    destruct (all_done st) eqn:Hdone; [ | discriminate ].
    injection Hrun as <- <-.
    destruct (reachable_inv _ _ _ _ _ Hexec) as [Hperm _ _ Hres _ _].
    rewrite (all_done_indices _ Hdone) in Hperm.
    split; [ | split ].
    + rewrite length_map, <- (length_map fst), (Permutation_length Hperm).
      apply length_seq.
    + apply Forall_map. eapply Forall_impl; [ | exact Hres ].
      intros e. apply outcome_of_latency.
    + exists st. auto.
Qed.

Lemma run_load_test_one_outcome_per_request_witness :
  1 <= 2
  /\ completes (run_load_test (fun _ => Response) 2 3 0 (sequential 3)).
Proof.
  split; [ lia | ].
  exact (proj1 (@run_load_test_one_outcome_per_request
                  (fun _ => Response) 2 3 0%Q ltac:(lia))).
Defined.



(** * Further properties of the module *)

(** ** What [print_statistics] returns and when *)

Lemma truediv_inv (a b q : Q) :
  truediv a b = Ok q -> ~ (b == 0)%Q /\ q = (a / b)%Q.
Proof.
  unfold truediv. destruct (Qeq_bool b 0) eqn:E; [ discriminate | ].
  intros H. injection H as <-. split; [ | reflexivity ].
  intros Hb. apply Qeq_eq_bool in Hb. congruence.
Qed.

Lemma len_nonzero {A : Type} (xs : list A) :
  ~ (len xs == 0)%Q <-> xs <> [].
Proof.
  split.
  - intros H ->. apply H. reflexivity.
  - intros Hne H. apply Hne. apply len_zero_iff. now apply Qeq_eq_bool.
Qed.

Lemma len_successful_failed (results : list LatencyResult) :
  (len (successful results) + len (failed results) == len results)%Q.
Proof.
  unfold len. rewrite <- inject_Z_plus, <- Nat2Z.inj_add.
  now rewrite successful_failed_length.
Qed.

(** A report, once returned, is this record. *)
Lemma print_statistics_inv (results : list LatencyResult) (total_time : Q)
    (report : StatsReport) :
  print_statistics results total_time = Ok report ->
  results <> [] /\ ~ (total_time == 0)%Q
  /\ exists lat,
       latency_section results = Ok lat
       /\ report =
          mkStatsReport (length results)
            (length (successful results))
            (100 * len (successful results) / len results)%Q
            (length (failed results))
            (100 * len (failed results) / len results)%Q
            total_time (len results / total_time)%Q
            lat (error_sample results).
Proof.
  unfold print_statistics. intros H.
  apply bind_Ok in H. destruct H as (ok_rate & Hok & H).
  apply bind_Ok in H. destruct H as (ko_rate & Hko & H).
  apply bind_Ok in H. destruct H as (rps & Hrps & H).
  apply bind_Ok in H. destruct H as (lat & Hlat & H).
  apply truediv_inv in Hok, Hko, Hrps.
  destruct Hok as [Hn ->], Hko as [_ ->], Hrps as [Ht ->].
  split; [ now apply len_nonzero | ]. split; [ exact Ht | ].
  exists lat. split; [ exact Hlat | ]. now injection H as <-.
Qed.

(** X1. [print_statistics] returns a report exactly when there is at least
    one outcome and the elapsed time is not zero; in every other case it
    raises [ZeroDivisionError], and it raises no other exception. *)
Theorem print_statistics_faults_only_by_zero_division
    (results : list LatencyResult) (total_time : Q) :
  (returns (print_statistics results total_time)
   <-> results <> [] /\ ~ (total_time == 0)%Q)
  /\ (raises (print_statistics results total_time) ZeroDivisionError
      <-> results = [] \/ (total_time == 0)%Q)
  /\ (forall e, raises (print_statistics results total_time) e ->
                e = ZeroDivisionError).
Proof.
  assert (Hcases :
    (results <> [] /\ ~ (total_time == 0)%Q
     /\ returns (print_statistics results total_time))
    \/ ((results = [] \/ (total_time == 0)%Q)
        /\ print_statistics results total_time = Raise ZeroDivisionError)).
  { destruct results as [ | r tl].
    - right. split; [ now left | reflexivity ].
    - destruct (Qeq_dec total_time 0) as [Ht | Ht].
      + right. split; [ now right | ].
        unfold print_statistics.
        assert (Hlen : ~ (len (r :: tl) == 0)%Q)
          by (apply len_nonzero; discriminate).
        rewrite !(truediv_ok _ Hlen). cbn [bind].
        apply Qeq_eq_bool in Ht. unfold truediv. now rewrite Ht.
      + left. split; [ discriminate | ]. split; [ exact Ht | ].
        destruct (@print_statistics_ok (r :: tl) total_time) as (lat & _ & H);
          [ discriminate | exact Ht | ].
        unfold returns. eauto. }
  unfold raises, returns in *.
  destruct Hcases as [(Hne & Ht & [rep Hrep]) | [Hor Hraise]].
  - rewrite Hrep.
    split; [ split; [ intros _; tauto | intros _; eauto ] | ].
    split; [ split; [ discriminate | intros [H | H]; contradiction ] | ].
    intros e He. discriminate.
  - rewrite Hraise.
    split; [ split; [ intros [a Ha]; discriminate
                    | intros [Hne Ht]; destruct Hor; contradiction ] | ].
    split; [ split; [ intros _; exact Hor | reflexivity ] | ].
    intros e He. now injection He as <-.
Qed.

Lemma len_pos {A : Type} (xs : list A) : xs <> [] -> (0 < len xs)%Q.
Proof.
  intros Hne. destruct xs as [ | x tl]; [ contradiction | ].
  unfold len, Qlt. simpl. lia.
Qed.

Lemma len_nonneg {A : Type} (xs : list A) : (0 <= len xs)%Q.
Proof. unfold len, Qle. simpl. lia. Qed.

(** X2. In every report the successes and the failures add up to the
    total, which is at least 1; both percentages lie between 0 and 100; and
    when nothing failed the success rate is 100 and the failure rate 0. *)
Theorem report_accounting (results : list LatencyResult) (total_time : Q)
    (report : StatsReport) :
  print_statistics results total_time = Ok report ->
  successful_count report + failed_count report = total_requests report
  /\ total_requests report = length results
  /\ 1 <= total_requests report
  /\ (0 <= success_rate report)%Q /\ (success_rate report <= 100)%Q
  /\ (0 <= failure_rate report)%Q /\ (failure_rate report <= 100)%Q
  /\ (failed_count report = 0 ->
      (success_rate report == 100)%Q /\ (failure_rate report == 0)%Q).
Proof.
  intros H. apply print_statistics_inv in H.
  destruct H as (Hne & Ht & lat & _ & ->). cbn.
  pose proof (len_pos Hne) as Hpos.
  pose proof (len_successful_failed results) as Hsum.
  pose proof (len_nonneg (successful results)) as Hs.
  pose proof (len_nonneg (failed results)) as Hf.
  split; [ apply successful_failed_length | ].
  split; [ reflexivity | ].
  split; [ destruct results; [ contradiction | simpl; lia ] | ].
  split; [ apply Qle_shift_div_l; [ exact Hpos | lra ] | ].
  split; [ apply Qle_shift_div_r; [ exact Hpos | lra ] | ].
  split; [ apply Qle_shift_div_l; [ exact Hpos | lra ] | ].
  split; [ apply Qle_shift_div_r; [ exact Hpos | lra ] | ].
  intros H0. apply length_zero_iff_nil in H0. rewrite H0 in *.
  change (len (@nil LatencyResult)) with 0%Q in *.
  assert (Hnz : ~ (len results == 0)%Q) by lra.
  split.
  - setoid_replace (len (successful results)) with (len results) by lra.
    field. exact Hnz.
  - field. exact Hnz.
Qed.

Lemma report_accounting_witness :
  exists report,
    print_statistics [mkLatencyResult true 4 EmptyString;
                      mkLatencyResult false 6 "unavailable"] 2 = Ok report
    /\ successful_count report + failed_count report = total_requests report
    /\ total_requests report = 2.
Proof.
  eexists. split; [ vm_compute; reflexivity | ].
  destruct (@report_accounting
              [mkLatencyResult true 4 EmptyString;
               mkLatencyResult false 6 "unavailable"] 2%Q _
              ltac:(vm_compute; reflexivity))
    as (H1 & H2 & _).
  split; [ exact H1 | exact H2 ].
Defined.

(** ** The figures of the latency block *)

Lemma latency_statistics_inv (latencies : list Q) (s : LatencyStats) :
  latency_statistics latencies = Ok s ->
  py_min latencies = Ok (lat_min s)
  /\ py_max latencies = Ok (lat_max s)
  /\ mean latencies = Ok (lat_mean s)
  /\ median latencies = Ok (lat_median s)
  /\ getitem latencies (percentile_index (length latencies) 50) = Ok (p50 s)
  /\ getitem latencies (percentile_index (length latencies) 90) = Ok (p90 s)
  /\ getitem latencies (percentile_index (length latencies) 95) = Ok (p95 s)
  /\ getitem latencies
       (Nat.min (percentile_index (length latencies) 99)
                (length latencies - 1)) = Ok (p99 s).
Proof.
  unfold latency_statistics. intros H.
  apply bind_Ok in H. destruct H as (mn & Hmn & H).
  apply bind_Ok in H. destruct H as (mx & Hmx & H).
  apply bind_Ok in H. destruct H as (avg & Havg & H).
  apply bind_Ok in H. destruct H as (med & Hmed & H).
  apply bind_Ok in H. destruct H as (sd & Hsd & H).
  apply bind_Ok in H. destruct H as (v50 & H50 & H).
  apply bind_Ok in H. destruct H as (v90 & H90 & H).
  apply bind_Ok in H. destruct H as (v95 & H95 & H).
  apply bind_Ok in H. destruct H as (v99 & H99 & H).
  injection H as <-. cbn. tauto.
Qed.

Lemma getitem_In {A : Type} (xs : list A) (i : nat) (x : A) :
  getitem xs i = Ok x -> In x xs.
Proof.
  unfold getitem. destruct (nth_error xs i) as [y | ] eqn:E; [ | discriminate ].
  intros H. injection H as <-. eapply nth_error_In. exact E.
Qed.

(** [min] returns an element that no element is below. *)
Lemma fold_min (tl : list Q) :
  forall x,
    let m := fold_left (fun m y => if Qlt_le_dec y m then y else m) tl x in
    In m (x :: tl) /\ Forall (fun y => (m <= y)%Q) (x :: tl).
Proof.
  induction tl as [ | y tl IH]; intros x; cbn zeta.
  - simpl. split; [ now left | ]. constructor; [ apply Qle_refl | constructor ].
  - cbn [fold_left]. destruct (Qlt_le_dec y x) as [Hlt | Hle].
    + destruct (IH y) as [Hin Hall]. cbn zeta in Hin, Hall.
      split; [ right; exact Hin | ].
      inversion Hall as [ | ? ? Hy Htl]; subst.
      constructor; [ | now constructor ].
      apply Qle_trans with y; [ exact Hy | now apply Qlt_le_weak ].
    + destruct (IH x) as [Hin Hall]. cbn zeta in Hin, Hall.
      split; [ destruct Hin as [<- | Hin]; [ now left | right; now right ] | ].
      inversion Hall as [ | ? ? Hx Htl]; subst.
      constructor; [ exact Hx | ]. constructor; [ | exact Htl ].
      apply Qle_trans with x; assumption.
Qed.

Lemma fold_max (tl : list Q) :
  forall x,
    let m := fold_left (fun m y => if Qlt_le_dec m y then y else m) tl x in
    In m (x :: tl) /\ Forall (fun y => (y <= m)%Q) (x :: tl).
Proof.
  induction tl as [ | y tl IH]; intros x; cbn zeta.
  - simpl. split; [ now left | ]. constructor; [ apply Qle_refl | constructor ].
  - cbn [fold_left]. destruct (Qlt_le_dec x y) as [Hlt | Hle].
    + destruct (IH y) as [Hin Hall]. cbn zeta in Hin, Hall.
      split; [ right; exact Hin | ].
      inversion Hall as [ | ? ? Hy Htl]; subst.
      constructor; [ | now constructor ].
      apply Qle_trans with y; [ now apply Qlt_le_weak | exact Hy ].
    + destruct (IH x) as [Hin Hall]. cbn zeta in Hin, Hall.
      split; [ destruct Hin as [<- | Hin]; [ now left | right; now right ] | ].
      inversion Hall as [ | ? ? Hx Htl]; subst.
      constructor; [ exact Hx | ]. constructor; [ | exact Htl ].
      apply Qle_trans with x; assumption.
Qed.

Lemma py_min_spec (xs : list Q) (m : Q) :
  py_min xs = Ok m -> In m xs /\ Forall (fun y => (m <= y)%Q) xs.
Proof.
  destruct xs as [ | x tl]; simpl; [ discriminate | ].
  intros H. injection H as <-. apply fold_min.
Qed.

Lemma py_max_spec (xs : list Q) (m : Q) :
  py_max xs = Ok m -> In m xs /\ Forall (fun y => (y <= m)%Q) xs.
Proof.
  destruct xs as [ | x tl]; simpl; [ discriminate | ].
  intros H. injection H as <-. apply fold_max.
Qed.

(** A sum of [n] numbers between [a] and [b] is between [n a] and [n b]. *)
Lemma Qsum_bounds (a b : Q) (xs : list Q) :
  Forall (fun y => (a <= y)%Q /\ (y <= b)%Q) xs ->
  (len xs * a <= Qsum xs)%Q /\ (Qsum xs <= len xs * b)%Q.
Proof.
  induction 1 as [ | x tl [Hax Hxb] _ [IHa IHb]].
  - unfold len. simpl. change (inject_Z 0) with 0%Q. split; lra.
  - assert (Hlen : (len (x :: tl) == len tl + 1)%Q).
    { unfold len. cbn [length]. rewrite Nat2Z.inj_succ, <- Z.add_1_r.
      now rewrite inject_Z_plus. }
    simpl Qsum. rewrite Hlen. split; lra.
Qed.

Lemma mean_bounds (a b : Q) (xs : list Q) (m : Q) :
  Forall (fun y => (a <= y)%Q /\ (y <= b)%Q) xs ->
  mean xs = Ok m -> (a <= m)%Q /\ (m <= b)%Q.
Proof.
  intros Hall Hm.
  assert (Hne : xs <> []) by (intros ->; discriminate).
  assert (Hm' : m = (Qsum xs / len xs)%Q).
  { destruct xs; [ contradiction | simpl in Hm; now injection Hm as <- ]. }
  subst m. pose proof (len_pos Hne) as Hpos.
  destruct (Qsum_bounds Hall) as [Ha Hb]. split.
  - apply Qle_shift_div_l; [ exact Hpos | ]. lra.
  - apply Qle_shift_div_r; [ exact Hpos | ]. lra.
Qed.

Lemma median_bounds (a b : Q) (xs : list Q) (m : Q) :
  Forall (fun y => (a <= y)%Q /\ (y <= b)%Q) xs ->
  median xs = Ok m -> (a <= m)%Q /\ (m <= b)%Q.
Proof.
  intros Hall. unfold median.
  assert (Hs : forall i x, getitem (sort xs) i = Ok x ->
                           (a <= x)%Q /\ (x <= b)%Q).
  { intros i x Hx. apply getitem_In in Hx.
    apply (Permutation_in _ (Permutation_sym (sort_perm xs))) in Hx.
    rewrite Forall_forall in Hall. now apply Hall. }
  destruct (Nat.eqb (length (sort xs)) 0); [ discriminate | ].
  destruct (Nat.eqb (length (sort xs) mod 2) 1).
  - apply Hs.
  - intros H. apply bind_Ok in H. destruct H as (lo & Hlo & H).
    apply bind_Ok in H. destruct H as (hi & Hhi & H).
    injection H as <-. apply Hs in Hlo, Hhi.
    destruct Hlo, Hhi. split.
    + apply Qle_shift_div_l; lra.
    + apply Qle_shift_div_r; lra.
Qed.

(** With a success the latency block is produced, from the sorted
    latencies of the successful outcomes. *)
Lemma latency_section_returns (results : list LatencyResult) :
  successful results <> [] ->
  exists s,
    latency_section results = Ok (Some s)
    /\ latency_statistics (sorted_latencies results) = Ok s.
Proof.
  intros Hs.
  pose proof (sorted_latencies_nonempty results Hs) as Hne.
  destruct (latency_statistics_ok Hne) as (mn & mx & avg & med & Hstats).
  eexists. split; [ | exact Hstats ].
  unfold latency_section.
  destruct (successful results); [ contradiction | ].
  now rewrite Hstats.
Qed.

Lemma sorted_latencies_perm (results : list LatencyResult) :
  Permutation (map latency_ms (successful results)) (sorted_latencies results).
Proof. apply sort_perm. Qed.

(** X3. With at least one success, no successful latency is below the
    reported minimum or above the reported maximum, and the mean, the
    median and each of p50, p90, p95 and p99 lie between the minimum and
    the maximum. *)
Theorem latency_figures_between_min_and_max (results : list LatencyResult) :
  successful results <> [] ->
  exists s,
    latency_section results = Ok (Some s)
    /\ Forall (fun r => (lat_min s <= latency_ms r)%Q
                        /\ (latency_ms r <= lat_max s)%Q)
              (successful results)
    /\ (lat_min s <= lat_mean s)%Q /\ (lat_mean s <= lat_max s)%Q
    /\ (lat_min s <= lat_median s)%Q /\ (lat_median s <= lat_max s)%Q
    /\ (lat_min s <= p50 s)%Q /\ (p50 s <= lat_max s)%Q
    /\ (lat_min s <= p90 s)%Q /\ (p90 s <= lat_max s)%Q
    /\ (lat_min s <= p95 s)%Q /\ (p95 s <= lat_max s)%Q
    /\ (lat_min s <= p99 s)%Q /\ (p99 s <= lat_max s)%Q.
Proof.
  intros Hs.
  destruct (latency_section_returns results Hs) as (s & Hsec & Hstats).
  exists s. split; [ exact Hsec | ].
  apply latency_statistics_inv in Hstats.
  destruct Hstats as (Hmn & Hmx & Havg & Hmed & H50 & H90 & H95 & H99).
  apply py_min_spec in Hmn. apply py_max_spec in Hmx.
  destruct Hmn as [_ Hmn], Hmx as [_ Hmx].
  assert (Hall : Forall (fun y => (lat_min s <= y)%Q /\ (y <= lat_max s)%Q)
                        (sorted_latencies results)).
  { rewrite Forall_forall in *. intros y Hy. split; auto. }
  split.
  - apply (Permutation_Forall (Permutation_sym (sorted_latencies_perm results)))
      in Hall.
    rewrite Forall_map in Hall. exact Hall.
  - pose proof (mean_bounds Hall Havg) as [? ?].
    pose proof (median_bounds Hall Hmed) as [? ?].
    apply getitem_In in H50, H90, H95, H99.
    rewrite Forall_forall in Hall.
    pose proof (Hall _ H50) as [? ?]. pose proof (Hall _ H90) as [? ?].
    pose proof (Hall _ H95) as [? ?]. pose proof (Hall _ H99) as [? ?].
    tauto.
Qed.

Lemma latency_figures_between_min_and_max_witness :
  successful [mkLatencyResult true 7 EmptyString;
              mkLatencyResult true 2 EmptyString] <> []
  /\ exists s,
      latency_section [mkLatencyResult true 7 EmptyString;
                       mkLatencyResult true 2 EmptyString] = Ok (Some s)
      /\ (lat_min s <= lat_mean s)%Q /\ (lat_mean s <= lat_max s)%Q.
Proof.
  split; [ simpl; discriminate | ].
  destruct (@latency_figures_between_min_and_max
              [mkLatencyResult true 7 EmptyString;
               mkLatencyResult true 2 EmptyString])
    as (s & Hsec & _ & Hlo & Hhi & _).
  - simpl. discriminate.
  - exists s. auto.
Defined.

Lemma fold_min_sorted (tl : list Q) (x : Q) :
  Forall (fun y => (x <= y)%Q) tl ->
  fold_left (fun m y => if Qlt_le_dec y m then y else m) tl x = x.
Proof.
  induction 1 as [ | y tl Hxy _ IH]; simpl; [ reflexivity | ].
  destruct (Qlt_le_dec y x) as [Hlt | _]; [ | exact IH ].
  exfalso. now apply (Qlt_not_le _ _ Hlt).
Qed.

(** X4. The reported minimum is the first element of the sorted latencies
    and the reported maximum equals the last one. *)
Theorem min_max_are_ends_of_sorted (results : list LatencyResult) :
  successful results <> [] ->
  exists s,
    latency_section results = Ok (Some s)
    /\ lat_min s = nth 0 (sorted_latencies results) 0%Q
    /\ (lat_max s ==
        nth (length (sorted_latencies results) - 1)
            (sorted_latencies results) 0)%Q.
Proof.
  intros Hs.
  destruct (latency_section_returns results Hs) as (s & Hsec & Hstats).
  exists s. split; [ exact Hsec | ].
  apply latency_statistics_inv in Hstats.
  destruct Hstats as (Hmn & Hmx & _).
  pose proof (sort_sorted (map latency_ms (successful results))) as Hsorted.
  fold (sorted_latencies results) in Hsorted.
  pose proof (sorted_latencies_nonempty results Hs) as Hne.
  split.
  - destruct (sorted_latencies results) as [ | x tl]; [ contradiction | ].
    simpl in Hmn. injection Hmn as <-. simpl.
    apply fold_min_sorted. now inversion Hsorted.
  - apply py_max_spec in Hmx. destruct Hmx as [Hin Hall].
    assert (Hlen : 1 <= length (sorted_latencies results)).
    { destruct (sorted_latencies results); [ contradiction | simpl; lia ]. }
    apply Qle_antisym.
    + destruct (In_nth _ _ 0%Q Hin) as (i & Hi & <-).
      apply sorted_nth_le; [ exact Hsorted | lia | lia ].
    + rewrite Forall_forall in Hall. apply Hall, nth_In. lia.
Qed.

Lemma min_max_are_ends_of_sorted_witness :
  successful [mkLatencyResult true 7 EmptyString;
              mkLatencyResult true 2 EmptyString] <> []
  /\ exists s,
      latency_section [mkLatencyResult true 7 EmptyString;
                       mkLatencyResult true 2 EmptyString] = Ok (Some s)
      /\ lat_min s = 2%Q.
Proof.
  split; [ simpl; discriminate | ].
  destruct (@min_max_are_ends_of_sorted
              [mkLatencyResult true 7 EmptyString;
               mkLatencyResult true 2 EmptyString])
    as (s & Hsec & Hmin & _).
  - simpl. discriminate.
  - exists s. split; [ exact Hsec | exact Hmin ].
Defined.

(** ** The statistics do not depend on the order of the outcomes *)

Unset Implicit Arguments.

Lemma filter_perm {A : Type} (f : A -> bool) (l l' : list A) :
  Permutation l l' -> Permutation (filter f l) (filter f l').
Proof.
  induction 1 as [ | x l l' _ IH | x y l | l l' l'' _ IH1 _ IH2]; simpl.
  - constructor.
  - destruct (f x); [ now constructor | exact IH ].
  - destruct (f x), (f y); try apply Permutation_refl. apply perm_swap.
  - now apply perm_trans with (filter f l').
Qed.

Lemma count_le_perm (x : Q) (l l' : list Q) :
  Permutation l l' -> count_le x l = count_le x l'.
Proof.
  intros H. unfold count_le. apply Permutation_length. now apply filter_perm.
Qed.

Lemma count_le_Qeq (x : Q) (l l' : list Q) :
  Forall2 Qeq l l' -> count_le x l = count_le x l'.
Proof.
  unfold count_le. induction 1 as [ | a b l l' Hab _ IH]; simpl;
    [ reflexivity | ].
  rewrite (Qleb_comp a b Hab x x (Qeq_refl x)).
  destruct (Qle_bool b x); simpl; congruence.
Qed.

Lemma filter_none {A : Type} (f : A -> bool) (l : list A) :
  (forall y, In y l -> f y = false) -> filter f l = [].
Proof.
  induction l as [ | a tl IH]; intros H; simpl; [ reflexivity | ].
  rewrite (H a (or_introl eq_refl)). apply IH.
  intros y Hy. apply H. now right.
Qed.

(** In a sorted list the elements that are at most [x] are the first
    [count_le x] ones. *)
Lemma sorted_nth_count (x : Q) (l : list Q) :
  StronglySorted Qle l ->
  forall k, k < length l -> ((nth k l 0 <= x)%Q <-> k < count_le x l).
Proof.
  unfold count_le.
  induction 1 as [ | a tl Hs IH Hall]; intros k Hk; simpl in Hk; [ lia | ].
  simpl filter. destruct (Qle_bool a x) eqn:Ea.
  - apply Qle_bool_iff in Ea. destruct k as [ | k]; simpl.
    + split; [ lia | intros _; exact Ea ].
    + rewrite IH by lia. lia.
  - assert (Hax : ~ (a <= x)%Q).
    { intros H. apply Qle_bool_iff in H. congruence. }
    assert (Hnone : filter (fun y => Qle_bool y x) tl = []).
    { apply filter_none. intros y Hy.
      rewrite Forall_forall in Hall. specialize (Hall y Hy).
      destruct (Qle_bool y x) eqn:Ey; [ | reflexivity ].
      apply Qle_bool_iff in Ey. exfalso. apply Hax.
      now apply Qle_trans with y. }
    rewrite Hnone. simpl. split; [ | lia ].
    intros H. exfalso. apply Hax.
    destruct k as [ | k]; simpl in H; [ exact H | ].
    apply Qle_trans with (nth k tl 0%Q); [ | exact H ].
    rewrite Forall_forall in Hall. apply Hall, nth_In. lia.
Qed.

(** Two sorted lists with the same counts agree position by position. *)
Lemma sorted_same_counts (l l' : list Q) :
  StronglySorted Qle l -> StronglySorted Qle l' ->
  length l = length l' ->
  (forall x, count_le x l = count_le x l') ->
  forall k, k < length l -> (nth k l 0 == nth k l' 0)%Q.
Proof.
  intros Hs Hs' Hlen Hcount k Hk.
  assert (Hk' : k < length l') by lia.
  apply Qle_antisym.
  - apply (sorted_nth_count _ l Hs k Hk). rewrite Hcount.
    apply (sorted_nth_count _ l' Hs' k Hk'). apply Qle_refl.
  - apply (sorted_nth_count _ l' Hs' k Hk'). rewrite <- Hcount.
    apply (sorted_nth_count _ l Hs k Hk). apply Qle_refl.
Qed.

Lemma pointwise_Forall2 (l l' : list Q) :
  length l = length l' ->
  (forall k, k < length l -> (nth k l 0 == nth k l' 0)%Q) ->
  Forall2 Qeq l l'.
Proof.
  revert l'. induction l as [ | a tl IH]; intros [ | b tl'] Hlen Hnth;
    simpl in Hlen; try discriminate; constructor.
  - apply (Hnth 0). simpl. lia.
  - apply IH; [ lia | ]. intros k Hk. apply (Hnth (S k)). simpl. lia.
Qed.

Lemma Forall2_Qeq_nth (l l' : list Q) :
  Forall2 Qeq l l' -> forall k, (nth k l 0 == nth k l' 0)%Q.
Proof.
  induction 1 as [ | a b l l' Hab _ IH]; intros [ | k]; simpl;
    try reflexivity; auto.
Qed.

Lemma Forall2_Qeq_length (l l' : list Q) :
  Forall2 Qeq l l' -> length l = length l'.
Proof. induction 1; simpl; congruence. Qed.

Lemma Qsum_Qeq (l l' : list Q) :
  Forall2 Qeq l l' -> (Qsum l == Qsum l')%Q.
Proof.
  induction 1 as [ | a b l l' Hab _ IH]; simpl; [ reflexivity | ].
  now rewrite Hab, IH.
Qed.

Lemma sort_Qeq (l l' : list Q) :
  Forall2 Qeq l l' -> Forall2 Qeq (sort l) (sort l').
Proof.
  intros H. pose proof (Forall2_Qeq_length l l' H) as Hlen.
  apply pointwise_Forall2; [ now rewrite !sort_length | ].
  apply sorted_same_counts; try apply sort_sorted.
  - now rewrite !sort_length.
  - intros x.
    rewrite <- (count_le_perm x _ _ (sort_perm l)),
            <- (count_le_perm x _ _ (sort_perm l')).
    now apply count_le_Qeq.
Qed.

(** Sorting two permutations of one list gives equal lists. *)
Lemma sort_of_perm (l l' : list Q) :
  Permutation l l' -> Forall2 Qeq (sort l) (sort l').
Proof.
  intros H. pose proof (Permutation_length H) as Hlen.
  apply pointwise_Forall2; [ now rewrite !sort_length | ].
  apply sorted_same_counts; try apply sort_sorted.
  - now rewrite !sort_length.
  - intros x.
    rewrite <- (count_le_perm x _ _ (sort_perm l)),
            <- (count_le_perm x _ _ (sort_perm l')).
    now apply count_le_perm.
Qed.

Lemma getitem_nth_inv (xs : list Q) (i : nat) (x : Q) :
  getitem xs i = Ok x -> x = nth i xs 0%Q /\ i < length xs.
Proof.
  unfold getitem. destruct (nth_error xs i) as [y | ] eqn:E; [ | discriminate ].
  intros H. injection H as <-. split.
  - symmetry. now apply nth_error_nth.
  - apply nth_error_Some. congruence.
Qed.

Lemma py_min_sorted (l : list Q) (m : Q) :
  StronglySorted Qle l -> py_min l = Ok m -> m = nth 0 l 0%Q.
Proof.
  intros Hs H. destruct l as [ | x tl]; [ discriminate | ].
  simpl in H. injection H as <-. simpl.
  apply fold_min_sorted. now inversion Hs.
Qed.

Lemma py_max_sorted (l : list Q) (m : Q) :
  StronglySorted Qle l -> py_max l = Ok m ->
  (m == nth (length l - 1) l 0)%Q.
Proof.
  intros Hs H. apply py_max_spec in H. destruct H as [Hin Hall].
  assert (Hlen : 1 <= length l) by (destruct l; [ contradiction | simpl; lia ]).
  apply Qle_antisym.
  - destruct (In_nth _ _ 0%Q Hin) as (i & Hi & <-).
    apply sorted_nth_le; [ exact Hs | lia | lia ].
  - rewrite Forall_forall in Hall. apply Hall, nth_In. lia.
Qed.

(** The median is the middle element of the sorted data, or the mean of
    the two middle ones. *)
Lemma median_inv (l : list Q) (m : Q) :
  median l = Ok m ->
  (length l mod 2 = 1 /\ m = nth (length l / 2) (sort l) 0%Q)
  \/ (length l mod 2 <> 1
      /\ m = ((nth (length l / 2 - 1) (sort l) 0
               + nth (length l / 2) (sort l) 0) / 2)%Q).
Proof.
  unfold median. rewrite sort_length.
  destruct (Nat.eqb (length l) 0); [ discriminate | ].
  destruct (Nat.eqb_spec (length l mod 2) 1) as [Hodd | Heven]; intros H.
  - left. apply getitem_nth_inv in H. tauto.
  - right. apply bind_Ok in H. destruct H as (lo & Hlo & H).
    apply bind_Ok in H. destruct H as (hi & Hhi & H).
    injection H as <-.
    apply getitem_nth_inv in Hlo, Hhi. destruct Hlo as [-> _], Hhi as [-> _].
    tauto.
Qed.

Lemma median_Qeq (l l' : list Q) (m m' : Q) :
  Forall2 Qeq l l' -> median l = Ok m -> median l' = Ok m' -> (m == m')%Q.
Proof.
  intros H Hm Hm'.
  pose proof (Forall2_Qeq_length l l' H) as Hlen.
  pose proof (Forall2_Qeq_nth _ _ (sort_Qeq l l' H)) as Hnth.
  apply median_inv in Hm, Hm'. rewrite <- Hlen in Hm'.
  destruct Hm as [[Ho ->] | [He ->]], Hm' as [[Ho' ->] | [He' ->]];
    try contradiction.
  - apply Hnth.
  - now rewrite (Hnth (length l / 2 - 1)), (Hnth (length l / 2)).
Qed.

Lemma squares_Qeq (l l' : list Q) (m m' : Q) :
  Forall2 Qeq l l' -> (m == m')%Q ->
  (Qsum (map (fun x => (x - m) * (x - m)) l)
   == Qsum (map (fun x => (x - m') * (x - m')) l'))%Q.
Proof.
  intros H Hm. induction H as [ | a b l l' Hab _ IH]; simpl; [ reflexivity | ].
  now rewrite Hab, Hm, IH.
Qed.

Lemma len_length {A : Type} (l l' : list A) :
  length l = length l' -> len l = len l'.
Proof. unfold len. now intros ->. Qed.

Lemma mean_Qeq (l l' : list Q) (m m' : Q) :
  Forall2 Qeq l l' -> mean l = Ok m -> mean l' = Ok m' -> (m == m')%Q.
Proof.
  intros H Hm Hm'.
  pose proof (len_length l l' (Forall2_Qeq_length l l' H)) as Hlen.
  destruct l as [ | a l], l' as [ | b l']; try discriminate.
  simpl in Hm, Hm'. injection Hm as <-. injection Hm' as <-.
  rewrite Hlen. now rewrite (Qsum_Qeq _ _ H).
Qed.

Lemma sample_variance_Qeq (l l' : list Q) :
  Forall2 Qeq l l' -> (sample_variance l == sample_variance l')%Q.
Proof.
  intros H. unfold sample_variance.
  pose proof (len_length l l' (Forall2_Qeq_length l l' H)) as Hlen.
  rewrite Hlen.
  rewrite (squares_Qeq l l' (Qsum l / len l') (Qsum l' / len l') H);
    [ reflexivity | ].
  now rewrite (Qsum_Qeq _ _ H).
Qed.

(** On two sorted lists that agree position by position the latency block
    has equal figures. *)
Lemma latency_statistics_Qeq (l l' : list Q) (s s' : LatencyStats) :
  StronglySorted Qle l -> StronglySorted Qle l' -> Forall2 Qeq l l' ->
  latency_statistics l = Ok s -> latency_statistics l' = Ok s' ->
  stats_eq s s'.
Proof.
  intros Hs Hs' H Hst Hst'.
  pose proof (Forall2_Qeq_length l l' H) as Hlen.
  pose proof (Forall2_Qeq_nth l l' H) as Hnth.
  assert (Hne : l <> []) by (intros ->; discriminate).
  assert (Hne' : l' <> []) by (intros ->; discriminate).
  destruct (latency_statistics_inv l Hst) as (Hmn & Hmx & Havg & Hmed & _).
  destruct (latency_statistics_inv l' Hst') as (Hmn' & Hmx' & Havg' & Hmed' & _).
  destruct (latency_statistics_ok Hne) as (mn & mx & avg & med & E).
  destruct (latency_statistics_ok Hne') as (mn' & mx' & avg' & med' & E').
  rewrite Hst in E. rewrite Hst' in E'.
  unfold stats_eq. repeat split.
  - rewrite (py_min_sorted l _ Hs Hmn), (py_min_sorted l' _ Hs' Hmn').
    apply Hnth.
  - rewrite (py_max_sorted l _ Hs Hmx), (py_max_sorted l' _ Hs' Hmx').
    rewrite <- Hlen. apply Hnth.
  - exact (mean_Qeq l l' _ _ H Havg Havg').
  - exact (median_Qeq l l' _ _ H Hmed Hmed').
  - injection E as ->. injection E' as ->. cbn [lat_stdev].
    rewrite <- Hlen. destruct (Nat.ltb 1 (length l)); simpl; [ | exact I ].
    now apply sample_variance_Qeq.
  - injection E as ->. injection E' as ->. cbn [p50].
    rewrite <- Hlen. apply Hnth.
  - injection E as ->. injection E' as ->. cbn [p90].
    rewrite <- Hlen. apply Hnth.
  - injection E as ->. injection E' as ->. cbn [p95].
    rewrite <- Hlen. apply Hnth.
  - injection E as ->. injection E' as ->. cbn [p99].
    rewrite <- Hlen. apply Hnth.
Qed.

(** X5. The latency block does not depend on the order in which the
    outcomes were collected: for two result sets that are permutations of
    each other, with at least one success, both blocks are produced and all
    their figures (minimum, maximum, mean, median, standard deviation and
    the four percentiles) are equal.  So are the counts. *)
Theorem latency_statistics_order_independent
    (results results' : list LatencyResult) :
  Permutation results results' ->
  successful results <> [] ->
  exists s s',
    latency_section results = Ok (Some s)
    /\ latency_section results' = Ok (Some s')
    /\ stats_eq s s'
    /\ length (successful results) = length (successful results')
    /\ length (failed results) = length (failed results').
Proof.
  intros Hperm Hs.
  pose proof (filter_perm success _ _ Hperm) as Hsucc.
  fold (successful results) (successful results') in Hsucc.
  assert (Hs' : successful results' <> []).
  { intros Hnil. rewrite Hnil in Hsucc.
    apply Permutation_sym, Permutation_nil in Hsucc. contradiction. }
  destruct (latency_section_returns results Hs) as (s & Hsec & Hst).
  destruct (latency_section_returns results' Hs') as (s' & Hsec' & Hst').
  exists s, s'. split; [ exact Hsec | ]. split; [ exact Hsec' | ]. split.
  - apply (latency_statistics_Qeq (sorted_latencies results)
             (sorted_latencies results')); try assumption;
      try apply sort_sorted.
    apply sort_of_perm. now apply Permutation_map.
  - split; [ now apply Permutation_length | ].
    apply Permutation_length. unfold failed. now apply filter_perm.
Qed.

Lemma latency_statistics_order_independent_witness :
  Permutation [mkLatencyResult true 7 EmptyString;
               mkLatencyResult true 2 EmptyString]
              [mkLatencyResult true 2 EmptyString;
               mkLatencyResult true 7 EmptyString]
  /\ successful [mkLatencyResult true 7 EmptyString;
                 mkLatencyResult true 2 EmptyString] <> []
  /\ exists s s',
      latency_section [mkLatencyResult true 7 EmptyString;
                       mkLatencyResult true 2 EmptyString] = Ok (Some s)
      /\ latency_section [mkLatencyResult true 2 EmptyString;
                          mkLatencyResult true 7 EmptyString] = Ok (Some s')
      /\ stats_eq s s'.
Proof.
  split; [ apply perm_swap | ]. split; [ simpl; discriminate | ].
  destruct (latency_statistics_order_independent
              [mkLatencyResult true 7 EmptyString;
               mkLatencyResult true 2 EmptyString]
              [mkLatencyResult true 2 EmptyString;
               mkLatencyResult true 7 EmptyString])
    as (s & s' & H1 & H2 & H3 & _).
  - apply perm_swap.
  - simpl. discriminate.
  - exists s, s'. auto.
Defined.

(** ** More invariants of the pool *)

Section PoolInvariants.

Variable plan : nat -> rpc_outcome.
Variable max_concurrent : nat.

(** A property every step keeps holds after any schedule. *)
Lemma exec_preserves (P : pool -> Prop) :
  (forall a st st', P st -> step plan max_concurrent a st = Some st' -> P st') ->
  forall schedule st st',
    P st -> exec plan max_concurrent schedule st = Some st' -> P st'.
Proof.
  intros Hstep schedule.
  induction schedule as [ | a rest IH]; intros st st' HP H; simpl in H.
  - now injection H as <-.
  - destruct (step plan max_concurrent a st) as [st1 | ] eqn:E;
      [ | discriminate ].
    apply (IH st1 st'); [ | exact H ]. now apply (Hstep a st).
Qed.

Lemma step_progress_inv (a : action) (st st' : pool) :
  progress_inv st -> step plan max_concurrent a st = Some st' ->
  progress_inv st'.
Proof.
  unfold progress_inv. intros Hinv Hstep.
  destruct a as [d | | i | i]; unfold step in Hstep.
  - destruct (Qle_bool 0 d); [ | discriminate ].
    now injection Hstep as <-.
  - destruct (pending st); [ discriminate | ].
    destruct (Nat.ltb (length (in_flight st)) max_concurrent);
      [ | discriminate ].
    now injection Hstep as <-.
  - destruct (take i (in_flight st)) as [[start rest] | ]; [ | discriminate ].
    now injection Hstep as <-.
  - destruct (take i (done st)) as [[r rest] | ]; [ | discriminate ].
    cbv zeta in Hstep.
    pose proof (f_equal (fun o => match o with Some x => x | None => st end)
                        Hstep) as Hst.
    cbv beta iota in Hst. rewrite <- Hst. cbn [progress completed].
    pose proof (Nat.div_mod_eq (completed st) 100) as Hc.
    pose proof (Nat.div_mod_eq (completed st + 1) 100) as Hc1.
    pose proof (Nat.mod_upper_bound (completed st) 100 ltac:(lia)) as Hr.
    pose proof (Nat.mod_upper_bound (completed st + 1) 100 ltac:(lia)) as Hr1.
    destruct (Nat.eqb_spec ((completed st + 1) mod 100) 0) as [H0 | H0].
    + assert (Hq : (completed st + 1) / 100 = S (completed st / 100))
        by (clear - Hc Hc1 Hr Hr1 H0; lia).
      rewrite Hq, seq_S, map_app, Hinv. cbn [map]. f_equal. f_equal.
      clear - Hc Hc1 Hr Hr1 H0 Hq. lia.
    + assert (Hq : (completed st + 1) / 100 = completed st / 100)
        by (clear - Hc Hc1 Hr Hr1 H0; lia).
      now rewrite Hq.
Qed.

Lemma timed_later (start_time now now' : Q) (e : nat * LatencyResult) :
  (now <= now')%Q -> timed plan start_time now e ->
  timed plan start_time now' e.
Proof.
  intros Hle (start & finish & H1 & H2 & H3 & He).
  exists start, finish. repeat split; try assumption.
  now apply Qle_trans with now.
Qed.

Lemma step_timing_inv (start_time : Q) (a : action) (st st' : pool) :
  timing_inv plan start_time st -> step plan max_concurrent a st = Some st' ->
  timing_inv plan start_time st'.
Proof.
  intros [Hclock Hfl Hdone Hres] Hstep.
  destruct a as [d | | i | i]; simpl in Hstep.
  - destruct (Qle_bool 0 d) eqn:Hd; [ | discriminate ].
    injection Hstep as <-. apply Qle_bool_iff in Hd.
    assert (Hlater : (clock st <= clock st + d)%Q) by lra.
    constructor; cbn [clock in_flight done results].
    + lra.
    + eapply Forall_impl; [ | exact Hfl ]. cbn beta. intros e [? ?].
      split; [ assumption | lra ].
    + eapply Forall_impl; [ | exact Hdone ].
      intros e. now apply timed_later.
    + eapply Forall_impl; [ | exact Hres ].
      intros e. now apply timed_later.
  - destruct (pending st) as [ | i rest]; [ discriminate | ].
    destruct (Nat.ltb (length (in_flight st)) max_concurrent);
      [ | discriminate ].
    injection Hstep as <-.
    constructor; cbn [clock in_flight done results]; try assumption.
    apply Forall_app. split; [ exact Hfl | ].
    constructor; [ | constructor ]. simpl. split; [ exact Hclock | lra ].
  - destruct (take i (in_flight st)) as [[start rest] | ] eqn:Ht;
      [ | discriminate ].
    injection Hstep as <-.
    apply take_Some in Ht. destruct Ht as [Hpf _].
    pose proof (Permutation_Forall Hpf Hfl) as Hfl'.
    inversion Hfl' as [ | ? ? [Hs1 Hs2] Hrest]; subst.
    constructor; cbn [clock in_flight done results]; try assumption.
    apply Forall_app. split; [ exact Hdone | ].
    constructor; [ | constructor ].
    exists start, (clock st). simpl in Hs1, Hs2.
    repeat split; try assumption. lra.
  - destruct (take i (done st)) as [[r rest] | ] eqn:Ht; [ | discriminate ].
    injection Hstep as <-.
    apply take_Some in Ht. destruct Ht as [Hpd _].
    pose proof (Permutation_Forall Hpd Hdone) as Hdone'.
    inversion Hdone' as [ | ? ? Hr Hrest]; subst.
    constructor; cbn [clock in_flight done results]; try assumption.
    apply Forall_app. split; [ exact Hres | ].
    constructor; [ exact Hr | constructor ].
Qed.

End PoolInvariants.

(** ** Runs of [run_load_test] and of [main] *)

Lemma run_load_test_inv (plan : nat -> rpc_outcome)
    (max_concurrent num_requests : nat) (start_time : Q)
    (schedule : list action) (outcomes : list LatencyResult) (total_time : Q) :
  run_load_test plan max_concurrent num_requests start_time schedule
    = Some (Ok (outcomes, total_time)) ->
  exists st,
    exec plan max_concurrent schedule (init num_requests start_time) = Some st
    /\ all_done st = true
    /\ outcomes = map snd (results st)
    /\ total_time = (clock st - start_time)%Q
    /\ 1 <= max_concurrent.
Proof.
  unfold run_load_test.
  destruct (Nat.eqb_spec max_concurrent 0) as [ | Hc]; [ discriminate | ].
  destruct (exec plan max_concurrent schedule (init num_requests start_time))
    as [st | ]; [ | discriminate ].
  destruct (all_done st) eqn:Hdone; [ | discriminate ].
  intros H. injection H as <- <-. exists st. repeat split; auto. lia.
Qed.

Lemma reachable_progress_inv (plan : nat -> rpc_outcome)
    (max_concurrent num_requests : nat) (start_time : Q)
    (schedule : list action) (st : pool) :
  exec plan max_concurrent schedule (init num_requests start_time) = Some st ->
  progress_inv st.
Proof.
  apply (exec_preserves plan max_concurrent progress_inv).
  - apply step_progress_inv.
  - reflexivity.
Qed.

Lemma reachable_timing_inv (plan : nat -> rpc_outcome)
    (max_concurrent num_requests : nat) (start_time : Q)
    (schedule : list action) (st : pool) :
  exec plan max_concurrent schedule (init num_requests start_time) = Some st ->
  timing_inv plan start_time st.
Proof.
  apply (exec_preserves plan max_concurrent (timing_inv plan start_time)).
  - apply step_timing_inv.
  - constructor; simpl; try constructor. apply Qle_refl.
Qed.

Lemma reachable_results_length (plan : nat -> rpc_outcome)
    (max_concurrent num_requests : nat) (start_time : Q)
    (schedule : list action) (st : pool) :
  exec plan max_concurrent schedule (init num_requests start_time) = Some st ->
  length (results st) <= num_requests
  /\ (all_done st = true -> length (results st) = num_requests).
Proof.
  intros Hexec.
  destruct (reachable_inv _ _ _ _ _ Hexec) as [Hperm _ _ _ _ _].
  pose proof (Permutation_length Hperm) as Hlen.
  rewrite length_seq in Hlen. split.
  - unfold indices in Hlen. rewrite !length_app, !length_map in Hlen. lia.
  - intros Hdone. rewrite (all_done_indices _ Hdone), length_map in Hlen.
    exact Hlen.
Qed.

Lemma reachable_progress (plan : nat -> rpc_outcome)
    (max_concurrent num_requests : nat) (start_time : Q)
    (schedule : list action) (st : pool) :
  exec plan max_concurrent schedule (init num_requests start_time) = Some st ->
  completed st = length (results st)
  /\ progress st
     = map (fun k => 100 * k) (seq 1 (length (results st) / 100)).
Proof.
  intros Hexec.
  pose proof (reachable_progress_inv _ _ _ _ _ _ Hexec) as Hprog.
  destruct (reachable_inv _ _ _ _ _ Hexec) as [_ _ _ _ _ Hcompl].
  unfold progress_inv in Hprog. rewrite Hcompl in Hprog. auto.
Qed.

(** X6. A "Progress:" line is printed after every 100th collected outcome
    and at no other time: in any state of a run the lines printed so far are
    those for 100, 200, ... up to the number of outcomes collected, and a
    finished run of N requests has printed floor(N / 100) of them. *)
Theorem progress_every_hundredth (plan : nat -> rpc_outcome)
    (max_concurrent num_requests : nat) (start_time : Q)
    (schedule : list action) (st : pool) :
  exec plan max_concurrent schedule (init num_requests start_time) = Some st ->
  completed st = length (results st)
  /\ progress st
     = map (fun k => 100 * k) (seq 1 (length (results st) / 100))
  /\ (all_done st = true ->
      progress st = map (fun k => 100 * k) (seq 1 (num_requests / 100))).
Proof.
  intros Hexec.
  destruct (reachable_progress _ _ _ _ _ _ Hexec) as [Hcompl Hprog].
  destruct (reachable_results_length _ _ _ _ _ _ Hexec) as [_ Hlen].
  split; [ exact Hcompl | ]. split; [ exact Hprog | ].
  intros Hdone. now rewrite Hprog, (Hlen Hdone).
Qed.

Lemma progress_every_hundredth_witness :
  exec (fun _ => Response) 2 (sequential 3) (init 3 0)
  = Some (mkPool 3 [] [] []
            [(0, mkLatencyResult true 1000 EmptyString);
             (1, mkLatencyResult true 1000 EmptyString);
             (2, mkLatencyResult true 1000 EmptyString)] 3 [])
  /\ progress (mkPool 3 [] [] []
            [(0, mkLatencyResult true 1000 EmptyString);
             (1, mkLatencyResult true 1000 EmptyString);
             (2, mkLatencyResult true 1000 EmptyString)] 3 [])
     = map (fun k => 100 * k) (seq 1 (3 / 100)).
Proof.
  split; [ vm_compute; reflexivity | ].
  refine (proj1 (proj2 (progress_every_hundredth (fun _ => Response) 2 3 0%Q
                          (sequential 3) _ _))).
  vm_compute. reflexivity.
Defined.

(** X7. The percentage of a "Progress:" line never divides by zero: every
    count a line is printed for lies between 100 and [num_requests], so
    [100*completed/num_requests] is computed and lies in (0, 100]. *)
Theorem progress_percent_never_faults (plan : nat -> rpc_outcome)
    (max_concurrent num_requests : nat) (start_time : Q)
    (schedule : list action) (st : pool) (p : nat) :
  exec plan max_concurrent schedule (init num_requests start_time) = Some st ->
  In p (progress st) ->
  100 <= p <= num_requests
  /\ exists q, progress_percent p num_requests = Ok q
               /\ (0 < q)%Q /\ (q <= 100)%Q.
Proof.
  intros Hexec Hin.
  destruct (reachable_progress _ _ _ _ _ _ Hexec) as [_ Hprog].
  destruct (reachable_results_length _ _ _ _ _ _ Hexec) as [Hlen _].
  rewrite Hprog in Hin. apply in_map_iff in Hin.
  destruct Hin as (k & <- & Hk). apply in_seq in Hk.
  pose proof (Nat.div_mod_eq (length (results st)) 100) as Hdm.
  assert (Hp : 100 <= 100 * k <= num_requests) by nia.
  split; [ exact Hp | ].
  set (p := 100 * k) in *. clearbody p. clear - Hp.
  assert (Hn : (0 < inject_Z (Z.of_nat num_requests))%Q).
  { unfold Qlt. simpl. lia. }
  assert (Hpq : (0 < inject_Z (Z.of_nat p))%Q).
  { unfold Qlt. simpl. lia. }
  assert (Hle : (inject_Z (Z.of_nat p) <= inject_Z (Z.of_nat num_requests))%Q).
  { rewrite <- Zle_Qle. lia. }
  unfold progress_percent. rewrite truediv_ok by lra.
  eexists. split; [ reflexivity | ]. split.
  - apply Qlt_shift_div_l; [ exact Hn | lra ].
  - apply Qle_shift_div_r; [ exact Hn | lra ].
Qed.

Lemma progress_percent_never_faults_witness :
  exists st,
    exec (fun _ => Response) 1 (sequential 100) (init 100 0) = Some st
    /\ In 100 (progress st)
    /\ 100 <= 100 <= 100
    /\ exists q, progress_percent 100 100 = Ok q /\ (0 < q)%Q /\ (q <= 100)%Q.
Proof.
  eexists. split; [ vm_compute; reflexivity | ].
  split; [ vm_compute; left; reflexivity | ].
  eapply (progress_percent_never_faults (fun _ => Response) 1 100 0%Q
            (sequential 100)).
  - vm_compute. reflexivity.
  - vm_compute. left. reflexivity.
Defined.

Lemma timed_latency (plan : nat -> rpc_outcome) (start_time now : Q)
    (e : nat * LatencyResult) :
  timed plan start_time now e ->
  (0 <= latency_ms (snd e))%Q
  /\ (latency_ms (snd e) <= (now - start_time) * 1000)%Q.
Proof.
  intros (start & finish & H1 & H2 & H3 & ->).
  destruct (plan (fst e)); simpl; split; lra.
Qed.

(** X9. What [run_load_test] returns is consistent in time: the total time
    is >= 0 and no outcome's latency exceeds the total time of the run put
    in milliseconds the same way ([* 1000]). *)
Theorem latencies_within_total_time (plan : nat -> rpc_outcome)
    (max_concurrent num_requests : nat) (start_time : Q)
    (schedule : list action) (outcomes : list LatencyResult) (total_time : Q) :
  run_load_test plan max_concurrent num_requests start_time schedule
    = Some (Ok (outcomes, total_time)) ->
  (0 <= total_time)%Q
  /\ Forall (fun r => (0 <= latency_ms r)%Q
                      /\ (latency_ms r <= total_time * 1000)%Q) outcomes.
Proof.
  intros Hrun. apply run_load_test_inv in Hrun.
  destruct Hrun as (st & Hexec & _ & -> & -> & _).
  destruct (reachable_timing_inv _ _ _ _ _ _ Hexec) as [Hclock _ _ Hres].
  split; [ lra | ].
  apply Forall_map. eapply Forall_impl; [ | exact Hres ].
  intros e. apply timed_latency.
Qed.

Lemma latencies_within_total_time_witness :
  run_load_test (fun _ => Response) 2 2 0
    [Start; Start; Tick 2; Finish 1; Tick 1; Finish 0; Collect 0; Collect 1]
  = Some (Ok ([mkLatencyResult true 3000 EmptyString;
               mkLatencyResult true 2000 EmptyString], 3%Q))
  /\ (0 <= 3)%Q.
Proof.
  split; [ vm_compute; reflexivity | ].
  refine (proj1 (latencies_within_total_time (fun _ => Response) 2 2 0%Q
                   [Start; Start; Tick 2; Finish 1; Tick 1; Finish 0;
                    Collect 0; Collect 1] _ _ _)).
  vm_compute. reflexivity.
Defined.

Lemma filter_map_length {A B : Type} (f : B -> bool) (g : A -> B)
    (l : list A) :
  length (filter f (map g l)) = length (filter (fun a => f (g a)) l).
Proof.
  induction l as [ | a tl IH]; simpl; [ reflexivity | ].
  destruct (f (g a)); simpl; congruence.
Qed.

Lemma filter_ext_length {A : Type} (f g : A -> bool) (l : list A) :
  Forall (fun a => f a = g a) l ->
  length (filter f l) = length (filter g l).
Proof.
  induction 1 as [ | a tl Ha _ IH]; simpl; [ reflexivity | ].
  rewrite Ha. destruct (g a); simpl; congruence.
Qed.

Lemma outcome_of_success (plan : nat -> rpc_outcome)
    (e : nat * LatencyResult) :
  outcome_of plan e -> success (snd e) = is_response (plan (fst e)).
Proof.
  intros (start & finish & _ & ->). now destruct (plan (fst e)).
Qed.

(** In a finished run the successes are the requests the service answered. *)
Lemma complete_run_counts (plan : nat -> rpc_outcome)
    (max_concurrent num_requests : nat) (start_time : Q)
    (schedule : list action) (outcomes : list LatencyResult) (total_time : Q) :
  run_load_test plan max_concurrent num_requests start_time schedule
    = Some (Ok (outcomes, total_time)) ->
  length outcomes = num_requests
  /\ length (successful outcomes)
     = length (filter (fun i => is_response (plan i)) (seq 0 num_requests))
  /\ length (failed outcomes)
     = length (filter (fun i => negb (is_response (plan i)))
                      (seq 0 num_requests)).
Proof.
  intros Hrun. apply run_load_test_inv in Hrun.
  destruct Hrun as (st & Hexec & Hdone & -> & _ & _).
  destruct (reachable_inv _ _ _ _ _ Hexec) as [Hperm _ _ Hres _ _].
  rewrite (all_done_indices _ Hdone) in Hperm.
  assert (Hsucc : Forall (fun e => success (snd e)
                                   = is_response (plan (fst e))) (results st)).
  { eapply Forall_impl; [ | exact Hres ]. apply outcome_of_success. }
  split; [ | split ].
  - rewrite length_map, <- (length_map fst), (Permutation_length Hperm).
    apply length_seq.
  - unfold successful. rewrite filter_map_length.
    rewrite (filter_ext_length _ (fun e => is_response (plan (fst e))) _ Hsucc).
    rewrite <- (filter_map_length (fun i => is_response (plan i)) fst).
    apply Permutation_length. now apply filter_perm.
  - unfold failed. rewrite filter_map_length.
    rewrite (filter_ext_length _
               (fun e => negb (is_response (plan (fst e)))) _).
    + rewrite <- (filter_map_length
                    (fun i => negb (is_response (plan i))) fst).
      apply Permutation_length. now apply filter_perm.
    + eapply Forall_impl; [ | exact Hsucc ]. cbn beta. now intros e ->.
Qed.

Lemma main_inv (plan : nat -> rpc_outcome) (requests concurrent : Z)
    (start_time : Q) (schedule : list action) (r : result StatsReport) :
  main plan requests concurrent start_time schedule = Some r ->
  (concurrent <= 0)%Z /\ r = Raise ValueError
  \/ (1 <= concurrent)%Z
     /\ exists outcomes total_time,
          run_load_test plan (Z.to_nat concurrent) (Z.to_nat requests)
            start_time schedule = Some (Ok (outcomes, total_time))
          /\ r = print_statistics outcomes total_time.
Proof.
  unfold main.
  destruct (run_load_test plan (Z.to_nat concurrent) (Z.to_nat requests)
              start_time schedule) as [[[outcomes total_time] | e] | ] eqn:E;
    [ | | discriminate ]; intros H; injection H as <-.
  - right. pose proof (run_load_test_inv _ _ _ _ _ _ _ E) as (_ & _ & _ & _ & _ & Hc).
    split; [ lia | eauto ].
  - left. unfold run_load_test in E.
    destruct (Nat.eqb_spec (Z.to_nat concurrent) 0) as [Hc | Hc].
    + injection E as <-. split; [ lia | reflexivity ].
    + destruct (exec plan (Z.to_nat concurrent) schedule
                  (init (Z.to_nat requests) start_time)) as [st | ];
        [ | discriminate ].
      destruct (all_done st); discriminate.
Qed.

(** X10. Whenever [main] prints a report, at least one request was asked
    for, the report's total is the number of requests, its successes are
    exactly the requests the service answered and its failures exactly those
    whose call raised [grpc.RpcError]. *)
Theorem main_report_counts (plan : nat -> rpc_outcome)
    (requests concurrent : Z) (start_time : Q) (schedule : list action)
    (report : StatsReport) :
  main plan requests concurrent start_time schedule = Some (Ok report) ->
  (1 <= requests)%Z /\ (1 <= concurrent)%Z
  /\ total_requests report = Z.to_nat requests
  /\ successful_count report
     = length (filter (fun i => is_response (plan i))
                      (seq 0 (Z.to_nat requests)))
  /\ failed_count report
     = length (filter (fun i => negb (is_response (plan i)))
                      (seq 0 (Z.to_nat requests))).
Proof.
  intros Hmain. apply main_inv in Hmain.
  destruct Hmain as [[_ H] | (Hc & outcomes & total_time & Hrun & Hrep)];
    [ discriminate | ].
  symmetry in Hrep. apply print_statistics_inv in Hrep.
  destruct Hrep as (Hne & _ & lat & _ & ->). cbn.
  destruct (complete_run_counts _ _ _ _ _ _ _ Hrun) as (Hlen & Hs & Hf).
  assert (Hreq : 1 <= Z.to_nat requests).
  { destruct outcomes; [ contradiction | simpl in Hlen; lia ]. }
  repeat split; try assumption; lia.
Qed.

Lemma main_report_counts_witness :
  exists report,
    main (fun i => if Nat.eqb i 1 then RpcError "unavailable" else Response)
         3 2 0 (sequential 3) = Some (Ok report)
    /\ (1 <= 3)%Z /\ (1 <= 2)%Z
    /\ total_requests report = 3 /\ successful_count report = 2
    /\ failed_count report = 1.
Proof.
  eexists. split; [ vm_compute; reflexivity | ].
  apply (main_report_counts
           (fun i => if Nat.eqb i 1 then RpcError "unavailable" else Response)
           3 2 0%Q (sequential 3)).
  vm_compute. reflexivity.
Defined.

Lemma filter_length_zero {A : Type} (f : A -> bool) (l : list A) :
  length (filter f l) = 0 <-> forall x, In x l -> f x = false.
Proof.
  induction l as [ | a tl IH]; simpl.
  - split; [ intros _ x [] | reflexivity ].
  - destruct (f a) eqn:Ea; simpl.
    + split; [ discriminate | ]. intros H.
      specialize (H a (or_introl eq_refl)). congruence.
    + rewrite IH. split.
      * intros H x [<- | Hx]; auto.
      * intros H x Hx. apply H. now right.
Qed.

Lemma latency_section_None (results : list LatencyResult)
    (lat : option LatencyStats) :
  latency_section results = Ok lat ->
  (lat = None <-> successful results = []).
Proof.
  unfold latency_section.
  destruct (successful results) as [ | r tl].
  - intros H. injection H as <-. tauto.
  - intros H. apply bind_Ok in H. destruct H as (s & _ & H).
    injection H as <-. split; discriminate.
Qed.

Lemma error_sample_None (results : list LatencyResult) :
  error_sample results = None <-> failed results = [].
Proof.
  unfold error_sample. destruct (failed results); split;
    try discriminate; reflexivity.
Qed.

(** X11. In a report printed by [main], the latency block is missing
    exactly when no request was answered, and the "Sample errors" block is
    missing exactly when every request was answered. *)
Theorem main_report_sections (plan : nat -> rpc_outcome)
    (requests concurrent : Z) (start_time : Q) (schedule : list action)
    (report : StatsReport) :
  main plan requests concurrent start_time schedule = Some (Ok report) ->
  (latency report = None
   <-> forall i, i < Z.to_nat requests -> is_response (plan i) = false)
  /\ (sample_errors report = None
      <-> forall i, i < Z.to_nat requests -> is_response (plan i) = true).
Proof.
  intros Hmain. apply main_inv in Hmain.
  destruct Hmain as [[_ H] | (Hc & outcomes & total_time & Hrun & Hrep)];
    [ discriminate | ].
  symmetry in Hrep. apply print_statistics_inv in Hrep.
  destruct Hrep as (_ & _ & lat & Hlat & ->). cbn [latency sample_errors].
  destruct (complete_run_counts _ _ _ _ _ _ _ Hrun) as (_ & Hs & Hf).
  split.
  - rewrite (latency_section_None _ _ Hlat).
    rewrite <- length_zero_iff_nil, Hs, filter_length_zero.
    split.
    + intros H i Hi. apply H. apply in_seq. lia.
    + intros H i Hi. apply in_seq in Hi. apply H. lia.
  - rewrite error_sample_None.
    rewrite <- length_zero_iff_nil, Hf, filter_length_zero.
    split.
    + intros H i Hi. specialize (H i). rewrite in_seq in H.
      apply negb_false_iff. apply H. lia.
    + intros H i Hi. apply in_seq in Hi. rewrite H by lia. reflexivity.
Qed.

Lemma main_report_sections_witness :
  exists report,
    main (fun _ => Response) 2 1 0 (sequential 2) = Some (Ok report)
    /\ (sample_errors report = None
        <-> forall i, i < Z.to_nat 2 ->
                      is_response ((fun _ => Response) i) = true).
Proof.
  eexists. split; [ vm_compute; reflexivity | ].
  apply (main_report_sections (fun _ => Response) 2 1 0%Q (sequential 2)).
  vm_compute. reflexivity.
Defined.

(** X12. Asked for zero requests (or a negative number), with at least
    one worker, [main] always ends in [ZeroDivisionError]: the run returns
    no outcome and the report divides by their number. *)
Theorem main_without_requests_faults (plan : nat -> rpc_outcome)
    (requests concurrent : Z) (start_time : Q) :
  (requests <= 0)%Z -> (1 <= concurrent)%Z ->
  main plan requests concurrent start_time []
  = Some (Raise ZeroDivisionError)
  /\ forall schedule r,
       main plan requests concurrent start_time schedule = Some r ->
       r = Raise ZeroDivisionError.
Proof.
  intros Hreq Hc.
  assert (Hn : Z.to_nat requests = 0) by lia.
  assert (Hw : Nat.eqb (Z.to_nat concurrent) 0 = false)
    by (apply Nat.eqb_neq; lia).
  split.
  - unfold main, run_load_test. rewrite Hn, Hw. reflexivity.
  - intros schedule r Hmain. apply main_inv in Hmain.
    destruct Hmain as [[H _] | (_ & outcomes & total_time & Hrun & ->)];
      [ lia | ].
    destruct (complete_run_counts _ _ _ _ _ _ _ Hrun) as (Hlen & _).
    rewrite Hn in Hlen. apply length_zero_iff_nil in Hlen. now subst.
Qed.

Lemma main_without_requests_faults_witness :
  (0 <= 0)%Z /\ (1 <= 50)%Z
  /\ main (fun _ => Response) 0 50 0 [] = Some (Raise ZeroDivisionError).
Proof.
  split; [ lia | ]. split; [ lia | ].
  exact (proj1 (main_without_requests_faults (fun _ => Response) 0 50 0%Q
                  ltac:(lia) ltac:(lia))).
Defined.

Lemma outcome_of_failure (plan : nat -> rpc_outcome)
    (e : nat * LatencyResult) :
  outcome_of plan e -> success (snd e) = false ->
  plan (fst e) = RpcError (error (snd e)).
Proof.
  intros (start & finish & _ & ->).
  destruct (plan (fst e)); simpl; [ discriminate | reflexivity ].
Qed.

(** X14. Every line of the "Sample errors" block that [main] prints is the
    text of the [grpc.RpcError] raised for one of the requests of the run,
    cut to its first 100 characters; there are at most 5 lines. *)
Theorem main_sample_errors_come_from_failed_calls
    (plan : nat -> rpc_outcome) (requests concurrent : Z) (start_time : Q)
    (schedule : list action) (report : StatsReport)
    (msgs : list string) :
  main plan requests concurrent start_time schedule = Some (Ok report) ->
  sample_errors report = Some msgs ->
  length msgs <= 5
  /\ forall m, In m msgs ->
       exists i msg,
         i < Z.to_nat requests
         /\ plan i = RpcError msg
         /\ m = substring 0 100 msg.
Proof.
  intros Hmain Hsample. apply main_inv in Hmain.
  destruct Hmain as [[_ H] | (Hc & outcomes & total_time & Hrun & Hrep)];
    [ discriminate | ].
  symmetry in Hrep. apply print_statistics_inv in Hrep.
  destruct Hrep as (_ & _ & lat & _ & ->). cbn [sample_errors] in Hsample.
  unfold error_sample in Hsample.
  destruct (failed outcomes) as [ | r0 tl] eqn:Ef; [ discriminate | ].
  rewrite <- Ef in Hsample.
  assert (Hmsgs : msgs = map (fun r => substring 0 100 (error r))
                             (firstn 5 (failed outcomes))) by congruence.
  clear Hsample Ef. subst msgs.
  split.
  - rewrite length_map. apply firstn_le_length.
  - intros m Hm. apply in_map_iff in Hm. destruct Hm as (r & <- & Hr).
    assert (Hr' : In r (failed outcomes)).
    { rewrite <- (firstn_skipn 5 (failed outcomes)).
      apply in_or_app. now left. }
    clear Hr. rename Hr' into Hr. unfold failed in Hr.
    apply filter_In in Hr. destruct Hr as [Hr Hfail].
    apply negb_true_iff in Hfail.
    apply run_load_test_inv in Hrun.
    destruct Hrun as (st & Hexec & Hdone & -> & _ & _).
    apply in_map_iff in Hr. destruct Hr as ([i r'] & Heq & Hin).
    simpl in Heq. subst r'.
    destruct (reachable_inv _ _ _ _ _ Hexec) as [Hperm _ _ Hres _ _].
    rewrite (all_done_indices _ Hdone) in Hperm.
    rewrite Forall_forall in Hres.
    pose proof (outcome_of_failure plan (i, r) (Hres _ Hin) Hfail) as Hplan.
    simpl in Hplan.
    exists i, (error r). split; [ | split; [ exact Hplan | reflexivity ] ].
    assert (Hi : In i (seq 0 (Z.to_nat requests))).
    { apply (Permutation_in _ Hperm). apply in_map_iff.
      exists (i, r). split; [ reflexivity | exact Hin ]. }
    apply in_seq in Hi. lia.
Qed.

Lemma main_sample_errors_come_from_failed_calls_witness :
  exists report,
    main (fun i => if Nat.eqb i 1 then RpcError "unavailable" else Response)
         3 2 0 (sequential 3) = Some (Ok report)
    /\ sample_errors report = Some ["unavailable"%string]
    /\ length ["unavailable"%string] <= 5.
Proof.
  eexists. split; [ vm_compute; reflexivity | ].
  split; [ vm_compute; reflexivity | ].
  refine (proj1 (main_sample_errors_come_from_failed_calls
                   (fun i => if Nat.eqb i 1 then RpcError "unavailable"
                             else Response)
                   3 2 0%Q (sequential 3) _ ["unavailable"%string] _ _)).
  - vm_compute. reflexivity.
  - vm_compute. reflexivity.
Defined.

(** X15. On binary64 floats, for every list of up to 50000 latencies, the
    products [len(latencies) * 0.50], [* 0.90], [* 0.95] and [* 0.99]
    truncate to floor(n * p / 100): each product lies in
    [[index, index + 1)] for the index [percentile_index] gives. *)
Theorem float_indices_are_floor_of_hundredths (n : nat) :
  n <= 50 * 1000 ->
  Binary64.index_is (N.of_nat n) Binary64.f50
    (N.of_nat (percentile_index n 50)) = true
  /\ Binary64.index_is (N.of_nat n) Binary64.f90
       (N.of_nat (percentile_index n 90)) = true
  /\ Binary64.index_is (N.of_nat n) Binary64.f95
       (N.of_nat (percentile_index n 95)) = true
  /\ Binary64.index_is (N.of_nat n) Binary64.f99
       (N.of_nat (percentile_index n 99)) = true.
Proof. apply binary64_indices. Qed.

Lemma float_indices_are_floor_of_hundredths_witness :
  2000 <= 50 * 1000
  /\ Binary64.index_is (N.of_nat 2000) Binary64.f95
       (N.of_nat (percentile_index 2000 95)) = true.
Proof.
  split; [ lia | ].
  exact (proj1 (proj2 (proj2 (float_indices_are_floor_of_hundredths 2000
                                ltac:(lia))))).
Defined.
